(** * CordasLivre front end: the fetch-with-retry routine, the AI-review
      request, the derived view state and the base-URL resolution of
      [src/App.tsx], embedded as Rocq functions and verified.

    [src/App.tsx] is present in two revisions.  Both share
    [resolveApiBaseUrl], [fetchProductsWithRetry], the product-loading
    effect and [topProduct]; the first revision also derives
    [lowestPrice]/[highestPrice], the second adds the AI-review modal.
    The state record below carries the fields of the second revision (a
    superset of the first). *)

From Stdlib Require Import List String Ascii Bool Arith ZArith QArith Lia.
From Stdlib Require Import DecimalString.
Import ListNotations.
Local Close Scope Q_scope.
Local Open Scope nat_scope.
Local Open Scope string_scope.

(* ================================================================== *)
(** * JavaScript values used by the component *)
(* ================================================================== *)

Module Js.

(** A JavaScript [number].  Finite doubles are rationals and the component
    only compares them ([===], [<], [Math.min], [Math.max]), never computes
    with them, so a finite value is modelled by the rational it denotes
    (the two zeros are one value, as they are for [===]). *)
Inductive number : Type :=
| Finite (q : Q)
| PosInfinity
| NegInfinity
| NaN.

Definition of_Z (z : Z) : number := Finite (inject_Z z).

Definition isNaN (x : number) : bool :=
  match x with NaN => true | _ => false end.

(** [x === y] on numbers: [NaN] is equal to nothing. *)
Definition strict_eq (x y : number) : bool :=
  match x, y with
  | Finite a, Finite b => Qeq_bool a b
  | PosInfinity, PosInfinity => true
  | NegInfinity, NegInfinity => true
  | _, _ => false
  end.

(** [x < y] on numbers: false as soon as one side is [NaN]. *)
Definition lt (x y : number) : bool :=
  match x, y with
  | NaN, _ | _, NaN => false
  | _, NegInfinity => false
  | NegInfinity, _ => true
  | PosInfinity, _ => false
  | Finite _, PosInfinity => true
  | Finite a, Finite b => negb (Qle_bool b a)
  end.

(** [x <= y] read as an order on the non-[NaN] numbers. *)
Definition le (x y : number) : Prop :=
  match x, y with
  | NaN, _ | _, NaN => False
  | NegInfinity, _ => True
  | _, PosInfinity => True
  | Finite a, Finite b => (a <= b)%Q
  | _, _ => False
  end.

(** [Math.min(...args)]: [NaN] when an argument is [NaN]; otherwise the scan
    of ECMA-262 21.3.2.25, which starts from [+Infinity] and keeps a value
    that is smaller than the lowest so far. *)
Definition keep_lower (lowest x : number) : number :=
  if lt x lowest then x else lowest.

Definition Math_min (args : list number) : number :=
  if existsb isNaN args then NaN
  else fold_left keep_lower args PosInfinity.

(** [Math.max(...args)], the mirror image, starting from [-Infinity]. *)
Definition keep_higher (highest x : number) : number :=
  if lt highest x then x else highest.

Definition Math_max (args : list number) : number :=
  if existsb isNaN args then NaN
  else fold_left keep_higher args NegInfinity.

(** ** Strings.  A string is a sequence of code units; the model covers the
    code units below 256, which is all the URL and host name handling of
    the component looks at. *)

(** White space and line terminators removed by [String.prototype.trim]
    (TAB, LF, VT, FF, CR, SP and NBSP in this range). *)
Definition is_white_space (c : ascii) : bool :=
  let n := nat_of_ascii c in
  ((9 <=? n)%nat && (n <=? 13)%nat) || (n =? 32)%nat || (n =? 160)%nat.

Fixpoint trimStart (s : string) : string :=
  match s with
  | EmptyString => EmptyString
  | String c rest => if is_white_space c then trimStart rest else s
  end.

Fixpoint trimEnd (s : string) : string :=
  match s with
  | EmptyString => EmptyString
  | String c rest =>
      match trimEnd rest with
      | EmptyString => if is_white_space c then EmptyString
                       else String c EmptyString
      | kept => String c kept
      end
  end.

Definition trim (s : string) : string := trimEnd (trimStart s).

(** [s.replace(/\/$/, '')]: without the [m] flag [$] matches at the end of
    the input only, so at most the last code unit is removed. *)
Fixpoint replace_trailing_slash (s : string) : string :=
  match s with
  | EmptyString => EmptyString
  | String c EmptyString => if Ascii.eqb c "/" then EmptyString else s
  | String c rest => String c (replace_trailing_slash rest)
  end.

(** Canonicalisation of the [i] flag.  Without the [u] flag a code unit is
    compared through its upper-case form, and no code unit outside ASCII
    maps to an ASCII one; comparing lower-case forms of the ASCII letters
    is the same relation. *)
Definition to_lower (c : ascii) : ascii :=
  let n := nat_of_ascii c in
  if (65 <=? n)%nat && (n <=? 90)%nat then ascii_of_nat (n + 32) else c.

Fixpoint lowercase (s : string) : string :=
  match s with
  | EmptyString => EmptyString
  | String c rest => String (to_lower c) (lowercase rest)
  end.

(** The literal [lit] matches at the start of [s], ignoring case; the rest
    of the input after the match is returned. *)
Fixpoint match_literal (lit s : string) : option string :=
  match lit, s with
  | EmptyString, _ => Some s
  | String _ _, EmptyString => None
  | String a lit', String b s' =>
      if Ascii.eqb (to_lower a) (to_lower b) then match_literal lit' s'
      else None
  end.

(** [/^(a1|a2|...)$/i.test(s)]: one alternative matches the whole input. *)
Definition test_anchored (alternatives : list string) (s : string) : bool :=
  existsb (fun lit => match match_literal lit s with
                      | Some EmptyString => true
                      | _ => false
                      end) alternatives.

(** [/a1|a2|.../i.test(s)]: one alternative matches at some position. *)
Fixpoint test_unanchored (alternatives : list string) (s : string) : bool :=
  existsb (fun lit => match match_literal lit s with
                      | Some _ => true
                      | None => false
                      end) alternatives
  || match s with
     | EmptyString => false
     | String _ rest => test_unanchored alternatives rest
     end.

(** [x <= y] and [x >= y] as JavaScript evaluates them: [false] when a side
    is [NaN], otherwise the negation of the opposite strict comparison. *)
Definition leb (x y : number) : bool :=
  negb (isNaN x) && negb (isNaN y) && negb (lt y x).

Definition geb (x y : number) : bool := leb y x.

(** [Boolean(s)] for a string: every string but the empty one. *)
Definition truthy (s : string) : bool := negb (String.eqb s "").

End Js.

(* ================================================================== *)
(** * Base URL resolution *)
(* ================================================================== *)

(** What the module reads from its surroundings when it is loaded:
    [import.meta.env.VITE_API_URL] ([None] when the variable is not set) and
    [window.location.hostname] ([None] when [typeof window] is
    ['undefined']). *)
Record Environment : Type := {
  VITE_API_URL : option string;
  window_location_hostname : option string
}.

Definition DEFAULT_API_URL : string :=
  "https://cordaslivre-back-end.onrender.com".

(** The alternatives of the two regular expressions, [\.] being a literal
    dot. *)
Definition loopback_names : list string := ["localhost"; "127.0.0.1"].

Definition resolveApiBaseUrl (env : Environment) : string :=
  let envUrl :=
    Js.trim (match VITE_API_URL env with
             | Some v => if String.eqb v "" then "" else v
             | None => ""
             end) in
  if String.eqb envUrl "" then DEFAULT_API_URL
  else
    let normalized := Js.replace_trailing_slash envUrl in
    match window_location_hostname env with
    | Some hostname =>
        let isLocalHost := Js.test_anchored loopback_names hostname in
        let envPointsToLocal := Js.test_unanchored loopback_names normalized in
        if negb isLocalHost && envPointsToLocal then DEFAULT_API_URL
        else normalized
    | None => normalized
    end.

(* ================================================================== *)
(** * Data model *)
(* ================================================================== *)

Inductive StringType : Type :=
| VIOLAO | GUITARRA | CONTRABAIXO | CAVAQUINHO | VIOLA_CAIPIRA | VIOLINO.

Definition StringType_eqb (a b : StringType) : bool :=
  match a, b with
  | VIOLAO, VIOLAO | GUITARRA, GUITARRA | CONTRABAIXO, CONTRABAIXO
  | CAVAQUINHO, CAVAQUINHO | VIOLA_CAIPIRA, VIOLA_CAIPIRA
  | VIOLINO, VIOLINO => true
  | _, _ => false
  end.

Module Product.
Record t : Type := {
  id : string;
  mlId : string;
  type : StringType;
  title : string;
  price : Js.number;
  rank : Js.number;
  ratingAvg : option Js.number;      (* [number | null] *)
  ratingCount : Js.number;
  thumbnail : string;
  permalink : string
}.
End Product.

Inductive Confidence : Type := baixa | media | alta.

Module AiReviewData.
Record t : Type := {
  title : string;
  summary : string;
  pros : list string;
  attentionPoints : list string;
  verdict : string;
  confidence : Confidence;
  generatedAt : string
}.
End AiReviewData.

(** The object literal posted to [/strings/ai-review]. *)
Module AiReviewRequest.
Record t : Type := {
  title : string;
  price : Js.number;
  ratingAvg : option Js.number;
  ratingCount : Js.number;
  type : StringType;
  permalink : string
}.
End AiReviewRequest.

Module AiReviewResponse.
Record t : Type := {
  product : AiReviewRequest.t;
  review : AiReviewData.t
}.
End AiReviewResponse.

(** ** View state: the [useState] cells of [App] *)

Record AppState : Type := {
  products : list Product.t;
  loading : bool;
  hasError : bool;
  selectedType : StringType;
  aiModalOpen : bool;
  aiReviewLoading : bool;
  aiReviewError : option string;
  aiReviewData : option AiReviewData.t;
  aiReviewProduct : option Product.t
}.

(** The initial values passed to [useState]. *)
Definition initialState : AppState := {|
  products := [];
  loading := true;
  hasError := false;
  selectedType := VIOLAO;
  aiModalOpen := false;
  aiReviewLoading := false;
  aiReviewError := None;
  aiReviewData := None;
  aiReviewProduct := None
|}.

Definition setProducts (v : list Product.t) (s : AppState) : AppState :=
  {| products := v; loading := loading s; hasError := hasError s;
     selectedType := selectedType s; aiModalOpen := aiModalOpen s;
     aiReviewLoading := aiReviewLoading s; aiReviewError := aiReviewError s;
     aiReviewData := aiReviewData s; aiReviewProduct := aiReviewProduct s |}.

Definition setLoading (v : bool) (s : AppState) : AppState :=
  {| products := products s; loading := v; hasError := hasError s;
     selectedType := selectedType s; aiModalOpen := aiModalOpen s;
     aiReviewLoading := aiReviewLoading s; aiReviewError := aiReviewError s;
     aiReviewData := aiReviewData s; aiReviewProduct := aiReviewProduct s |}.

Definition setHasError (v : bool) (s : AppState) : AppState :=
  {| products := products s; loading := loading s; hasError := v;
     selectedType := selectedType s; aiModalOpen := aiModalOpen s;
     aiReviewLoading := aiReviewLoading s; aiReviewError := aiReviewError s;
     aiReviewData := aiReviewData s; aiReviewProduct := aiReviewProduct s |}.

Definition setSelectedType (v : StringType) (s : AppState) : AppState :=
  {| products := products s; loading := loading s; hasError := hasError s;
     selectedType := v; aiModalOpen := aiModalOpen s;
     aiReviewLoading := aiReviewLoading s; aiReviewError := aiReviewError s;
     aiReviewData := aiReviewData s; aiReviewProduct := aiReviewProduct s |}.

Definition setAiModalOpen (v : bool) (s : AppState) : AppState :=
  {| products := products s; loading := loading s; hasError := hasError s;
     selectedType := selectedType s; aiModalOpen := v;
     aiReviewLoading := aiReviewLoading s; aiReviewError := aiReviewError s;
     aiReviewData := aiReviewData s; aiReviewProduct := aiReviewProduct s |}.

Definition setAiReviewLoading (v : bool) (s : AppState) : AppState :=
  {| products := products s; loading := loading s; hasError := hasError s;
     selectedType := selectedType s; aiModalOpen := aiModalOpen s;
     aiReviewLoading := v; aiReviewError := aiReviewError s;
     aiReviewData := aiReviewData s; aiReviewProduct := aiReviewProduct s |}.

Definition setAiReviewError (v : option string) (s : AppState) : AppState :=
  {| products := products s; loading := loading s; hasError := hasError s;
     selectedType := selectedType s; aiModalOpen := aiModalOpen s;
     aiReviewLoading := aiReviewLoading s; aiReviewError := v;
     aiReviewData := aiReviewData s; aiReviewProduct := aiReviewProduct s |}.

Definition setAiReviewData (v : option AiReviewData.t) (s : AppState)
  : AppState :=
  {| products := products s; loading := loading s; hasError := hasError s;
     selectedType := selectedType s; aiModalOpen := aiModalOpen s;
     aiReviewLoading := aiReviewLoading s; aiReviewError := aiReviewError s;
     aiReviewData := v; aiReviewProduct := aiReviewProduct s |}.

Definition setAiReviewProduct (v : option Product.t) (s : AppState)
  : AppState :=
  {| products := products s; loading := loading s; hasError := hasError s;
     selectedType := selectedType s; aiModalOpen := aiModalOpen s;
     aiReviewLoading := aiReviewLoading s; aiReviewError := aiReviewError s;
     aiReviewData := aiReviewData s; aiReviewProduct := v |}.

(* ================================================================== *)
(** * Derived view state *)
(* ================================================================== *)

(** [products.find((product) => product.rank === 1) || products[0]];
    an object is truthy, so the right operand is used exactly when [find]
    returns [undefined] ([None]). *)
Definition topProduct (products : list Product.t) : option Product.t :=
  match find (fun product => Js.strict_eq (Product.rank product) (Js.of_Z 1))
             products with
  | Some product => Some product
  | None => nth_error products 0
  end.

(** [products.length ? Math.min(...products.map((p) => p.price)) : 0] *)
Definition lowestPrice (products : list Product.t) : Js.number :=
  if negb (List.length products =? 0)%nat
  then Js.Math_min (map Product.price products)
  else Js.of_Z 0.

Definition highestPrice (products : list Product.t) : Js.number :=
  if negb (List.length products =? 0)%nat
  then Js.Math_max (map Product.price products)
  else Js.of_Z 0.

(* ================================================================== *)
(** * Effects: HTTP, timers, console, and the monad of [async] code *)
(* ================================================================== *)

(** Why axios rejects: no response, the [timeout] elapsed, or a status
    outside 2xx. *)
Inductive AxiosError : Type :=
| NetworkError
| TimeoutExceeded
| BadStatus (status : Z).

(** A thrown or caught value, of static type [unknown]. *)
Inductive unknown : Type :=
| undefined
| axios_error (e : AxiosError).

Record AxiosResponse (A : Type) : Type := { data : A }.
Arguments data {A} _.

Inductive Reply (A : Type) : Type :=
| Fulfilled (response : AxiosResponse A)
| Rejected (e : AxiosError).
Arguments Fulfilled {A} _.
Arguments Rejected {A} _.

(** What the component does to the outside world, in the order it does it. *)
Inductive Effect : Type :=
| HttpGet (url : string) (timeout : Z) (params_type : StringType)
| HttpPost (url : string) (body : AiReviewRequest.t) (timeout : Z)
| Wait (ms : Z)
| ConsoleError (message : string) (value : unknown).

(** The surroundings of the component: the module constant [API_BASE_URL] and
    the remote API.  [get_reply n ty] is how the [n]-th HTTP request of the
    run (counted from 0) ends when it is a GET with [params: { type: ty }];
    [post_reply n body] likewise for a POST. *)
Record Network : Type := {
  API_BASE_URL : string;
  get_reply : nat -> StringType -> Reply (list Product.t);
  post_reply : nat -> AiReviewRequest.t -> Reply AiReviewResponse.t
}.

Record Runtime : Type := {
  effects : list Effect;      (* oldest first *)
  requests : nat;             (* HTTP requests issued so far *)
  view : AppState
}.

Inductive Completion (A : Type) : Type :=
| Normal (value : A)
| Throw (thrown : unknown).
Arguments Normal {A} _.
Arguments Throw {A} _.

Definition Async (A : Type) : Type := Runtime -> Completion A * Runtime.

Definition ret {A} (a : A) : Async A := fun r => (Normal a, r).

Definition throw {A} (v : unknown) : Async A := fun r => (Throw v, r).

Definition bind {A B} (m : Async A) (k : A -> Async B) : Async B :=
  fun r =>
    match m r with
    | (Normal a, r') => k a r'
    | (Throw v, r') => (Throw v, r')
    end.

Declare Scope async_scope.
Delimit Scope async_scope with async.
Notation "x <- m ;; k" := (bind m (fun x => k))
  (at level 61, m at next level, right associativity) : async_scope.
Notation "m ;; k" := (bind m (fun _ => k))
  (at level 61, right associativity) : async_scope.
Local Open Scope async_scope.

(** [try { body } catch (error) { handler }] *)
Definition try_catch {A} (body : Async A) (handler : unknown -> Async A)
  : Async A :=
  fun r =>
    match body r with
    | (Normal a, r') => (Normal a, r')
    | (Throw v, r') => handler v r'
    end.

(** [try { body } finally { finalizer }], also [promise.finally(...)]: the
    completion of [body] stands unless the finalizer throws. *)
Definition try_finally {A} (body : Async A) (finalizer : Async unit)
  : Async A :=
  fun r =>
    match body r with
    | (c, r') =>
        match finalizer r' with
        | (Normal _, r'') => (c, r'')
        | (Throw v, r'') => (Throw v, r'')
        end
    end.

(** The completion of [m] as a value: what a promise settles with. *)
Definition attempt {A} (m : Async A) : Async (Completion A) :=
  fun r => match m r with (c, r') => (Normal c, r') end.

(** Resuming after an [await] with the completion the promise settled
    with. *)
Definition resume {A} (c : Completion A) : Async A := fun r => (c, r).

Definition exec {A} (m : Async A) (r : Runtime) : Runtime := snd (m r).

Definition update (f : AppState -> AppState) : Async unit :=
  fun r => (Normal tt,
            {| effects := effects r; requests := requests r;
               view := f (view r) |}).

Definition read {A} (f : AppState -> A) : Async A :=
  fun r => (Normal (f (view r)), r).

Definition perform (e : Effect) (r : Runtime) : Runtime :=
  {| effects := effects r ++ [e]; requests := requests r; view := view r |}.

Definition issue (e : Effect) (r : Runtime) : Runtime :=
  {| effects := effects r ++ [e]; requests := S (requests r);
     view := view r |}.

Definition of_reply {A} (reply : Reply A) : Completion (AxiosResponse A) :=
  match reply with
  | Fulfilled response => Normal response
  | Rejected e => Throw (axios_error e)
  end.

(** [await axios.get(url, { timeout, params: { type } })] *)
Definition axios_get (net : Network) (url : string) (timeout : Z)
    (type : StringType) : Async (AxiosResponse (list Product.t)) :=
  fun r => (of_reply (get_reply net (requests r) type),
            issue (HttpGet url timeout type) r).

(** [await axios.post(url, body, { timeout })] *)
Definition axios_post (net : Network) (url : string)
    (body : AiReviewRequest.t) (timeout : Z)
  : Async (AxiosResponse AiReviewResponse.t) :=
  fun r => (of_reply (post_reply net (requests r) body),
            issue (HttpPost url body timeout) r).

(** [await wait(ms)]: a timer of [ms] milliseconds. *)
Definition wait (ms : Z) : Async unit :=
  fun r => (Normal tt, perform (Wait ms) r).

Definition console_error (message : string) (value : unknown) : Async unit :=
  fun r => (Normal tt, perform (ConsoleError message value) r).

(* ================================================================== *)
(** * Fetch with retry *)
(* ================================================================== *)

(** The [for (let attempt = 1; attempt <= retries; attempt++)] loop with its
    [try]/[catch] body, entered at [attempt] with [lastError].  [remaining]
    is the number of iterations still possible, [retries + 1 - attempt]; it
    reaches 0 exactly when the loop condition fails. *)
Fixpoint retry_loop (net : Network) (type : StringType) (retries : nat)
    (delayMs : Z) (remaining attempt : nat) (lastError : unknown)
  : Async (list Product.t) :=
  match remaining with
  | O => throw lastError
  | S remaining' =>
      if (attempt <=? retries)%nat then
        try_catch
          (response <- axios_get net (API_BASE_URL net ++ "/strings")
                                 25000 type ;;
           ret (data response))
          (fun error =>
             let lastError := error in
             (if (attempt <? retries)%nat then wait delayMs else ret tt) ;;
             retry_loop net type retries delayMs remaining' (S attempt)
                        lastError)
      else throw lastError
  end.

Definition fetchProductsWithRetry (net : Network) (type : StringType)
    (retries : nat) (delayMs : Z) : Async (list Product.t) :=
  retry_loop net type retries delayMs retries 1 undefined.

(** The default arguments [retries = 5, delayMs = 2000]. *)
Definition default_retries : nat := 5.
Definition default_delayMs : Z := 2000.

(* ================================================================== *)
(** * The product-loading effect: [useEffect(..., [selectedType])] *)
(* ================================================================== *)

Definition fetch_error_message : string :=
  "Erro ao conectar com o Back-end após tentativas:".

(** The [.then(...)], [.catch(...)] and [.finally(...)] callbacks, run when
    the promise of [fetchProductsWithRetry] settles with [c]. *)
Definition productsSettled (c : Completion (list Product.t)) : Async unit :=
  try_finally
    (try_catch
       (data <- resume c ;;
        update (setProducts data) ;;
        update (setHasError false))
       (fun err =>
          update (setHasError true) ;;
          console_error fetch_error_message err))
    (update (setLoading false)).

(** The whole effect, run without anything else happening in between. *)
Definition loadProductsEffect (net : Network) : Async unit :=
  update (setLoading true) ;;
  selected <- read selectedType ;;
  try_finally
    (try_catch
       (data <- fetchProductsWithRetry net selected
                  default_retries default_delayMs ;;
        update (setProducts data) ;;
        update (setHasError false))
       (fun err =>
          update (setHasError true) ;;
          console_error fetch_error_message err))
    (update (setLoading false)).

(* ================================================================== *)
(** * AI review request *)
(* ================================================================== *)

Definition ai_review_log_message : string := "Erro ao gerar avaliação IA:".

Definition ai_review_error_message : string :=
  "Não foi possível gerar a avaliação IA agora. Tente novamente em instantes.".

Definition ai_review_body (product : Product.t) : AiReviewRequest.t :=
  {| AiReviewRequest.title := Product.title product;
     AiReviewRequest.price := Product.price product;
     AiReviewRequest.ratingAvg := Product.ratingAvg product;
     AiReviewRequest.ratingCount := Product.ratingCount product;
     AiReviewRequest.type := Product.type product;
     AiReviewRequest.permalink := Product.permalink product |}.

Definition handleGenerateAiReview (net : Network) (product : Product.t)
  : Async unit :=
  update (setAiModalOpen true) ;;
  update (setAiReviewLoading true) ;;
  update (setAiReviewError None) ;;
  update (setAiReviewData None) ;;
  update (setAiReviewProduct (Some product)) ;;
  try_finally
    (try_catch
       (response <- axios_post net (API_BASE_URL net ++ "/strings/ai-review")
                               (ai_review_body product) 25000 ;;
        update (setAiReviewData
                  (Some (AiReviewResponse.review (data response)))))
       (fun error =>
          console_error ai_review_log_message error ;;
          update (setAiReviewError (Some ai_review_error_message))))
    (update (setAiReviewLoading false)).

(** The part of [handleGenerateAiReview] before the [await]... *)
Definition reviewRequested (product : Product.t) : Async unit :=
  update (setAiModalOpen true) ;;
  update (setAiReviewLoading true) ;;
  update (setAiReviewError None) ;;
  update (setAiReviewData None) ;;
  update (setAiReviewProduct (Some product)).

(** ... and the part after it, resumed with the completion [c] of the
    POST. *)
Definition reviewSettled (c : Completion (AxiosResponse AiReviewResponse.t))
  : Async unit :=
  try_finally
    (try_catch
       (response <- resume c ;;
        update (setAiReviewData
                  (Some (AiReviewResponse.review (data response)))))
       (fun error =>
          console_error ai_review_log_message error ;;
          update (setAiReviewError (Some ai_review_error_message))))
    (update (setAiReviewLoading false)).

(** What the modal shows of the review: the JSX renders the modal only when
    [aiModalOpen], and inside it the review only when it is neither loading
    nor in error. *)
Definition displayedReview (s : AppState) : option AiReviewData.t :=
  if aiModalOpen s then
    if aiReviewLoading s then None
    else match aiReviewError s with
         | Some message =>
             if String.eqb message "" then aiReviewData s else None
         | None => aiReviewData s
         end
  else None.

(* ================================================================== *)
(** * The page as an event-driven machine *)
(* ================================================================== *)

(** An [async] function gives the event loop back at every [await], so user
    events and settling promises interleave.  At this level a running
    [fetchProductsWithRetry] is one pending promise, numbered in the order of
    initiation, and the event that settles it carries its completion. *)
Record Page : Type := {
  runtime : Runtime;
  initiated : list StringType;   (* filter of fetch 0, 1, ..., oldest first *)
  pendingFetches : list nat;
  reviewsRequested : nat;
  pendingReviews : list nat
}.

Inductive PageEvent : Type :=
| ClickFilter (value : StringType)       (* [onClick] of a filter button *)
| FetchSettled (request : nat) (c : Completion (list Product.t))
| ClickGenerate (card : nat)             (* button of the [card]-th product *)
| ReviewSettled (request : nat)
                (c : Completion (AxiosResponse AiReviewResponse.t))
| ClickClose.                            (* the modal's Fechar button *)

Definition with_runtime (r : Runtime) (pg : Page) : Page :=
  {| runtime := r; initiated := initiated pg;
     pendingFetches := pendingFetches pg;
     reviewsRequested := reviewsRequested pg;
     pendingReviews := pendingReviews pg |}.

Definition is_pending (request : nat) (pending : list nat) : bool :=
  existsb (Nat.eqb request) pending.

Definition settle (request : nat) (pending : list nat) : list nat :=
  filter (fun k => negb (Nat.eqb request k)) pending.

(** The effect starts a fetch for the filter of the current render. *)
Definition startFetch (pg : Page) : Page :=
  {| runtime := exec (update (setLoading true)) (runtime pg);
     initiated := initiated pg ++ [selectedType (view (runtime pg))];
     pendingFetches := pendingFetches pg ++ [List.length (initiated pg)];
     reviewsRequested := reviewsRequested pg;
     pendingReviews := pendingReviews pg |}.

(** First render and first run of the effect. *)
Definition mount : Page :=
  startFetch {| runtime := {| effects := []; requests := 0;
                              view := initialState |};
                initiated := []; pendingFetches := [];
                reviewsRequested := 0; pendingReviews := [] |}.

(** One event.  An event the page cannot receive (a promise that is not
    pending, a button that is not rendered) leaves it unchanged; setting
    [selectedType] to the value it has does not re-run the effect. *)
Definition step (pg : Page) (ev : PageEvent) : Page :=
  let s := view (runtime pg) in
  match ev with
  | ClickFilter value =>
      if StringType_eqb value (selectedType s) then pg
      else startFetch
             (with_runtime (exec (update (setSelectedType value))
                                 (runtime pg)) pg)
  | FetchSettled request c =>
      if is_pending request (pendingFetches pg) then
        {| runtime := exec (productsSettled c) (runtime pg);
           initiated := initiated pg;
           pendingFetches := settle request (pendingFetches pg);
           reviewsRequested := reviewsRequested pg;
           pendingReviews := pendingReviews pg |}
      else pg
  | ClickGenerate card =>
      if loading s then pg
      else match nth_error (products s) card with
           | Some product =>
               {| runtime := exec (reviewRequested product) (runtime pg);
                  initiated := initiated pg;
                  pendingFetches := pendingFetches pg;
                  reviewsRequested := S (reviewsRequested pg);
                  pendingReviews :=
                    pendingReviews pg ++ [reviewsRequested pg] |}
           | None => pg
           end
  | ReviewSettled request c =>
      if is_pending request (pendingReviews pg) then
        {| runtime := exec (reviewSettled c) (runtime pg);
           initiated := initiated pg;
           pendingFetches := pendingFetches pg;
           reviewsRequested := reviewsRequested pg;
           pendingReviews := settle request (pendingReviews pg) |}
      else pg
  | ClickClose =>
      if aiModalOpen s
      then with_runtime (exec (update (setAiModalOpen false)) (runtime pg)) pg
      else pg
  end.

Definition run (pg : Page) (evs : list PageEvent) : Page :=
  fold_left step evs pg.

(** The fetch initiated last, with its filter. *)
Definition latestRequest (pg : Page) : option (nat * StringType) :=
  match rev (initiated pg) with
  | ty :: _ => Some (List.length (initiated pg) - 1, ty)
  | [] => None
  end.

(** Pending promises are numbered below the next request number. *)
Definition well_numbered (pg : Page) : Prop :=
  Forall (fun k => k < List.length (initiated pg)) (pendingFetches pg)
  /\ Forall (fun k => k < reviewsRequested pg) (pendingReviews pg).

(* ================================================================== *)
(** * Vocabulary of the statements *)
(* ================================================================== *)

(** How the next [k] GET requests for [ty] end, from request number [n0]. *)
Fixpoint next_replies (net : Network) (ty : StringType) (n0 k : nat)
  : list (Reply (list Product.t)) :=
  match k with
  | O => []
  | S k' => get_reply net n0 ty :: next_replies net ty (S n0) k'
  end.

(** The GET issued by every attempt. *)
Definition get_effect (net : Network) (ty : StringType) : Effect :=
  HttpGet (API_BASE_URL net ++ "/strings") 25000 ty.

(** [k] attempts, each followed by the delay. *)
Fixpoint failed_attempts (net : Network) (ty : StringType) (delayMs : Z)
    (k : nat) : list Effect :=
  match k with
  | O => []
  | S k' => get_effect net ty :: Wait delayMs
              :: failed_attempts net ty delayMs k'
  end.

(** The effects of [n] attempts that all fail: a GET per attempt, the delay
    between two attempts, nothing after the last one. *)
Definition exhausted_attempts (net : Network) (ty : StringType) (delayMs : Z)
    (n : nat) : list Effect :=
  match n with
  | O => []
  | S m => failed_attempts net ty delayMs m ++ [get_effect net ty]
  end.

Definition is_http_get (e : Effect) : bool :=
  match e with HttpGet _ _ _ => true | _ => false end.

Definition is_http (e : Effect) : bool :=
  match e with HttpGet _ _ _ | HttpPost _ _ _ => true | _ => false end.

Definition count_gets (tr : list Effect) : nat :=
  List.length (filter is_http_get tr).

Definition count_http (tr : list Effect) : nat :=
  List.length (filter is_http tr).

(** The delays waited, in order. *)
Fixpoint waits (tr : list Effect) : list Z :=
  match tr with
  | [] => []
  | Wait ms :: tr' => ms :: waits tr'
  | _ :: tr' => waits tr'
  end.

(* ================================================================== *)
(** * Sample data for the concrete runs *)
(* ================================================================== *)

Definition sample_product (name : string) (ty : StringType) (rank price : Z)
  : Product.t :=
  {| Product.id := name; Product.mlId := "MLB" ++ name; Product.type := ty;
     Product.title := "Encordoamento " ++ name;
     Product.price := Js.of_Z price; Product.rank := Js.of_Z rank;
     Product.ratingAvg := None; Product.ratingCount := Js.of_Z 12;
     Product.thumbnail := "https://img.example/" ++ name;
     Product.permalink := "https://produto.example/" ++ name |}.

Definition violao_list : list Product.t :=
  [sample_product "v1" VIOLAO 1 40; sample_product "v2" VIOLAO 2 55].

Definition guitarra_list : list Product.t :=
  [sample_product "g1" GUITARRA 1 60].

Definition sample_review : AiReviewData.t :=
  {| AiReviewData.title := "Boa escolha";
     AiReviewData.summary := "Som brilhante";
     AiReviewData.pros := ["Durabilidade"];
     AiReviewData.attentionPoints := ["Tensao alta"];
     AiReviewData.verdict := "Recomendado";
     AiReviewData.confidence := alta;
     AiReviewData.generatedAt := "2024-01-01T00:00:00Z" |}.

Definition sample_review_response (product : Product.t)
  : AxiosResponse AiReviewResponse.t :=
  {| data := {| AiReviewResponse.product := ai_review_body product;
                AiReviewResponse.review := sample_review |} |}.

(** A remote API whose first [failures] requests are rejected and whose later
    requests are answered, a GET with the list for its filter. *)
Definition flaky_network (failures : nat) : Network :=
  {| API_BASE_URL := DEFAULT_API_URL;
     get_reply := fun n ty =>
       if (n <? failures)%nat then Rejected (BadStatus 503)
       else Fulfilled {| data := match ty with
                                 | GUITARRA => guitarra_list
                                 | _ => violao_list
                                 end |};
     post_reply := fun n body =>
       if (n <? failures)%nat then Rejected TimeoutExceeded
       else Fulfilled {| data := {| AiReviewResponse.product := body;
                                    AiReviewResponse.review :=
                                      sample_review |} |} |}.

Definition fresh_runtime : Runtime :=
  {| effects := []; requests := 0; view := initialState |}.

(** A runtime that displays the guitar list, with an earlier review still
    stored, while the filter is [VIOLAO]. *)
Definition stale_runtime : Runtime :=
  {| effects := []; requests := 0;
     view := setAiReviewData (Some sample_review)
               (setProducts guitarra_list initialState) |}.

(** The POST issued for a product. *)
Definition post_effect (net : Network) (product : Product.t) : Effect :=
  HttpPost (API_BASE_URL net ++ "/strings/ai-review")
           (ai_review_body product) 25000.

(** [product.rank === 1], the predicate given to [find]. *)
Definition rank_is_1 (product : Product.t) : bool :=
  Js.strict_eq (Product.rank product) (Js.of_Z 1).

(** Products delivered with ranks 3, 1, 2, in that order. *)
Definition ranks_3_1_2 : list Product.t :=
  [sample_product "c" VIOLINO 3 30; sample_product "a" VIOLINO 1 50;
   sample_product "b" VIOLINO 2 20].

(** Products none of which carries rank 1. *)
Definition ranks_4_2 : list Product.t :=
  [sample_product "d" CAVAQUINHO 4 35; sample_product "e" CAVAQUINHO 2 25].

(** No price of the list is [NaN]: prices are decimals delivered as JSON,
    which has no notation for [NaN]. *)
Definition prices_are_numbers (products : list Product.t) : Prop :=
  forall p, In p products -> Js.isNaN (Product.price p) = false.

(** What the first regular expression accepts: [name] is the text
    [localhost] or the text [127.0.0.1], in any letter case.  Other names of
    the loopback interface are not accepted. *)
Definition is_localhost_literal (name : string) : Prop :=
  In (Js.lowercase name) loopback_names.

(** What the second regular expression accepts: one of the two texts occurs
    somewhere in [url], inside a longer host name or in the path as well. *)
Definition contains_localhost_literal (url : string) : Prop :=
  exists before name after,
    url = before ++ name ++ after /\ is_localhost_literal name.

(** Specification side, not read off the code: the host names that denote
    the loopback interface.  [localhost] in any letter case (RFC 6761), the
    IPv4 literals of 127.0.0.0/8 (RFC 1122) and the IPv6 literal [::1] in
    the bracketed form [window.location.hostname] gives it (RFC 4291). *)
Inductive loopback_host : string -> Prop :=
| loopback_localhost (name : string) :
    Js.lowercase name = "localhost" -> loopback_host name
| loopback_ipv4 (b c d : nat) :
    b < 256 -> c < 256 -> d < 256 ->
    loopback_host ("127." ++ NilZero.string_of_uint (Nat.to_uint b)
                   ++ "." ++ NilZero.string_of_uint (Nat.to_uint c)
                   ++ "." ++ NilZero.string_of_uint (Nat.to_uint d))
| loopback_ipv6 : loopback_host "[::1]".

Definition override_env (override hostname : string) : Environment :=
  {| VITE_API_URL := Some override;
     window_location_hostname := Some hostname |}.

(** The view state of a page. *)
Definition shown (pg : Page) : AppState := view (runtime pg).

(** The user selects [GUITARRA] while the first fetch (for [VIOLAO]) is
    pending; the fetch for [GUITARRA] is fulfilled first, the one for
    [VIOLAO] after it. *)
Definition late_response_events : list PageEvent :=
  [ClickFilter GUITARRA;
   FetchSettled 1 (Normal guitarra_list);
   FetchSettled 0 (Normal violao_list)].

(** The list arrives, the user asks for the review of the first card, the
    review arrives, the user closes the modal. *)
Definition review_then_close_events : list PageEvent :=
  [FetchSettled 0 (Normal violao_list);
   ClickGenerate 0;
   ReviewSettled 0 (Normal (sample_review_response
                              (sample_product "v1" VIOLAO 1 40)));
   ClickClose].

(* ================================================================== *)
(** * The rest of the component: labels, badges, links, render branches *)
(* ================================================================== *)

Module StringTypeOption.
Record t : Type := { value : StringType; label : string }.
End StringTypeOption.

Definition stringTypeOptions : list StringTypeOption.t :=
  [ {| StringTypeOption.value := VIOLAO;
       StringTypeOption.label := "Violão" |};
    {| StringTypeOption.value := GUITARRA;
       StringTypeOption.label := "Guitarra" |};
    {| StringTypeOption.value := CONTRABAIXO;
       StringTypeOption.label := "Contrabaixo" |};
    {| StringTypeOption.value := CAVAQUINHO;
       StringTypeOption.label := "Cavaquinho" |};
    {| StringTypeOption.value := VIOLA_CAIPIRA;
       StringTypeOption.label := "Viola Caipira" |};
    {| StringTypeOption.value := VIOLINO;
       StringTypeOption.label := "Violino" |} ].

(** [stringTypeOptions.find((o) => o.value === selectedType)?.label
     ?? 'Violão'] *)
Definition selectedTypeLabel (selected : StringType) : string :=
  match find (fun option =>
                StringType_eqb (StringTypeOption.value option) selected)
             stringTypeOptions with
  | Some option => StringTypeOption.label option
  | None => "Violão"
  end.

Definition formatAiConfidence (confidence : Confidence) : string :=
  match confidence with
  | alta => "Alta"
  | baixa => "Baixa"
  | media => "Média"
  end.

(** The literal [4.8]: the double nearest to 4.8, which is
    5404319552844595 / 2^50. *)
Definition number_4_8 : Js.number :=
  Js.Finite (5404319552844595 # 1125899906842624).

(** [rating !== null && rating >= 4.8] *)
Definition hasExcellentRating (rating : option Js.number) : bool :=
  match rating with
  | None => false
  | Some r => Js.geb r number_4_8
  end.

(** [product.rank <= 3], which selects the highlighted card style and the
    "Top n" badge. *)
Definition rankHighlighted (product : Product.t) : bool :=
  Js.leb (Product.rank product) (Js.of_Z 3).

(** [Boolean(topProduct?.permalink)] *)
Definition hasTopProduct (products : list Product.t) : bool :=
  match topProduct products with
  | Some product => Js.truthy (Product.permalink product)
  | None => false
  end.

(** The attributes of the two "buy the best offer" anchors; [None] is
    [undefined]. *)
Record Anchor : Type := {
  href : option string;
  target : option string;
  rel : option string
}.

Definition topProductLink (products : list Product.t) : Anchor :=
  {| href := if hasTopProduct products
             then option_map Product.permalink (topProduct products)
             else Some "#ranking";
     target := if hasTopProduct products then Some "_blank" else None;
     rel := if hasTopProduct products then Some "noopener noreferrer"
            else None |}.

(** What the ranking section renders: eight placeholders while loading, a
    notice when the list is empty, the grid of cards otherwise. *)
Inductive RankingSection : Type :=
| Skeleton (placeholders : nat)
| EmptyNotice (label : string)
| ProductGrid (cards : list Product.t).

Definition rankingSection (s : AppState) : RankingSection :=
  if loading s then Skeleton 8
  else if (List.length (products s) =? 0)%nat
       then EmptyNotice (selectedTypeLabel (selectedType s))
       else ProductGrid (products s).

(** What the modal renders under its title. *)
Inductive ModalBody : Type :=
| Generating
| ErrorNotice (message : string)
| ReviewCard (review : AiReviewData.t)
| EmptyBody.

Definition modalBody (s : AppState) : ModalBody :=
  let review_or_nothing :=
    match aiReviewData s with
    | Some review => ReviewCard review
    | None => EmptyBody
    end in
  if aiReviewLoading s then Generating
  else match aiReviewError s with
       | Some message =>
           if Js.truthy message then ErrorNotice message
           else review_or_nothing
       | None => review_or_nothing
       end.

(** [aiReviewProduct?.title ?? 'Produto selecionado'] *)
Definition modalTitle (s : AppState) : string :=
  match aiReviewProduct s with
  | Some product => Product.title product
  | None => "Produto selecionado"
  end.

(** [aiModalOpen && (...)]: the modal, when it is rendered. *)
Definition modal (s : AppState) : option (string * ModalBody) :=
  if aiModalOpen s then Some (modalTitle s, modalBody s) else None.

(* ================================================================== *)
(** * Vocabulary of the further statements *)
(* ================================================================== *)

(** How [fetchProductsWithRetry] settles, read off the replies to the
    attempts it may make: the payload of the first fulfilled reply, or the
    error of the last reply when all are rejected. *)
Fixpoint settle_replies (replies : list (Reply (list Product.t)))
    (lastError : unknown) : Completion (list Product.t) :=
  match replies with
  | [] => Throw lastError
  | Fulfilled response :: _ => Normal (data response)
  | Rejected e :: rest => settle_replies rest (axios_error e)
  end.

(** The number of attempts made: up to and including the first fulfilled
    reply. *)
Fixpoint attempts_made (replies : list (Reply (list Product.t))) : nat :=
  match replies with
  | [] => 0
  | Fulfilled _ :: _ => 1
  | Rejected _ :: rest => S (attempts_made rest)
  end.

(** The effects added by a run that starts in [r] and ends in [r']. *)
Definition effects_since (r r' : Runtime) : list Effect :=
  skipn (List.length (effects r)) (effects r').

Definition total_wait (tr : list Effect) : Z :=
  fold_right Z.add 0%Z (waits tr).

Definition is_console_error (e : Effect) : bool :=
  match e with ConsoleError _ _ => true | _ => false end.

Definition is_throw {A} (c : Completion A) : bool :=
  match c with Throw _ => true | Normal _ => false end.

(** Products with a price that is not a number, and with an empty
    permalink. *)
Definition unpriced_product : Product.t :=
  {| Product.id := "n"; Product.mlId := "MLBn"; Product.type := VIOLAO;
     Product.title := "Sem preco"; Product.price := Js.NaN;
     Product.rank := Js.of_Z 2; Product.ratingAvg := None;
     Product.ratingCount := Js.of_Z 0; Product.thumbnail := "";
     Product.permalink := "" |}.

(* ================================================================== *)
(** * Fetch with retry: results *)
(* ================================================================== *)

Section RetryLoop.

Variables (net : Network) (ty : StringType) (retries : nat) (delayMs : Z).

(** The loop as the source writes it: test, body, increment. *)
Lemma retry_loop_unfold (attempt : nat) (lastError : unknown) :
  retry_loop net ty retries delayMs (retries + 1 - attempt) attempt lastError
  = if (attempt <=? retries)%nat then
      try_catch
        (response <- axios_get net (API_BASE_URL net ++ "/strings")
                               25000 ty ;;
         ret (data response))
        (fun error =>
           (if (attempt <? retries)%nat then wait delayMs else ret tt) ;;
           retry_loop net ty retries delayMs
                      (retries + 1 - S attempt) (S attempt) error)
    else throw lastError.
Proof.
  destruct (Nat.leb_spec attempt retries) as [Hle | Hgt].
  - replace (retries + 1 - attempt) with (S (retries + 1 - S attempt))
      by lia.
    simpl. apply Nat.leb_le in Hle. rewrite Hle. reflexivity.
  - replace (retries + 1 - attempt) with 0 by lia. reflexivity.
Qed.

Lemma failed_attempts_count (k : nat) :
  count_gets (failed_attempts net ty delayMs k ++ [get_effect net ty])%list
  = S k.
Proof.
  induction k as [| k IH]; [reflexivity |].
  unfold count_gets in *. simpl. now rewrite IH.
Qed.

Lemma failed_attempts_waits (k : nat) :
  waits (failed_attempts net ty delayMs k ++ [get_effect net ty])%list
  = repeat delayMs k.
Proof.
  induction k as [| k IH]; [reflexivity |]. simpl. now rewrite IH.
Qed.

(** One iteration whose request is rejected. *)
Lemma retry_iteration_rejected (attempt : nat) (lastError : unknown)
    (e : AxiosError) (r : Runtime) :
  (attempt <= retries)%nat ->
  get_reply net (requests r) ty = Rejected e ->
  retry_loop net ty retries delayMs (retries + 1 - attempt) attempt
             lastError r
  = retry_loop net ty retries delayMs (retries + 1 - S attempt) (S attempt)
      (axios_error e)
      (if (attempt <? retries)%nat
       then perform (Wait delayMs) (issue (get_effect net ty) r)
       else issue (get_effect net ty) r).
Proof.
  intros Hle Hrej. rewrite retry_loop_unfold.
  apply Nat.leb_le in Hle. rewrite Hle.
  unfold try_catch, bind, axios_get. rewrite Hrej. simpl.
  destruct (attempt <? retries)%nat; reflexivity.
Qed.

(** One iteration whose request is fulfilled. *)
Lemma retry_iteration_fulfilled (attempt : nat) (lastError : unknown)
    (response : AxiosResponse (list Product.t)) (r : Runtime) :
  (attempt <= retries)%nat ->
  get_reply net (requests r) ty = Fulfilled response ->
  retry_loop net ty retries delayMs (retries + 1 - attempt) attempt
             lastError r
  = (Normal (data response), issue (get_effect net ty) r).
Proof.
  intros Hle Hok. rewrite retry_loop_unfold.
  apply Nat.leb_le in Hle. rewrite Hle.
  unfold try_catch, bind, axios_get. rewrite Hok. reflexivity.
Qed.

(** Failures below the bound, then a success. *)
Lemma retry_loop_succeeds (response : AxiosResponse (list Product.t)) :
  forall (errors : list AxiosError) (attempt : nat) (lastError : unknown)
         (r : Runtime),
    (attempt + List.length errors <= retries)%nat ->
    next_replies net ty (requests r) (S (List.length errors))
      = (map Rejected errors ++ [Fulfilled response])%list ->
    retry_loop net ty retries delayMs (retries + 1 - attempt) attempt
               lastError r
    = (Normal (data response),
       {| effects := effects r
                     ++ failed_attempts net ty delayMs (List.length errors)
                     ++ [get_effect net ty];
          requests := requests r + S (List.length errors);
          view := view r |}).
Proof.
  induction errors as [| e errors IH]; intros attempt lastError r Hle Hnext.
  - simpl in Hnext. injection Hnext as Hok.
    rewrite (retry_iteration_fulfilled _ _ response) by (simpl in Hle; lia || assumption).
    unfold issue. simpl. f_equal. f_equal. lia.
  - simpl in Hle. simpl in Hnext. injection Hnext as Hrej Hrest.
    rewrite (retry_iteration_rejected _ _ e) by (lia || assumption).
    assert (Hlt : (attempt <? retries)%nat = true)
      by (apply Nat.ltb_lt; lia).
    rewrite Hlt.
    rewrite IH.
    + unfold perform, issue. simpl. rewrite <- !app_assoc. simpl.
      f_equal. f_equal. lia.
    + simpl. lia.
    + exact Hrest.
Qed.

End RetryLoop.

Section RetryExhausted.

Variables (net : Network) (ty : StringType) (retries : nat) (delayMs : Z).

Lemma last_cons_default {A} (a d : A) (l : list A) :
  last (a :: l) d = last l a.
Proof.
  revert a d; induction l as [| b l IH]; intros a d; [reflexivity |].
  change (last (a :: b :: l) d) with (last (b :: l) d).
  rewrite !IH. reflexivity.
Qed.

(** Every remaining attempt fails: the loop runs to its bound and the
    function throws the error caught last. *)
Lemma retry_loop_exhausted :
  forall (errors : list AxiosError) (attempt : nat) (lastError : unknown)
         (r : Runtime),
    attempt + List.length errors = retries + 1 ->
    next_replies net ty (requests r) (List.length errors)
      = map Rejected errors ->
    retry_loop net ty retries delayMs (retries + 1 - attempt) attempt
               lastError r
    = (Throw (last (map axios_error errors) lastError),
       {| effects := effects r
                     ++ exhausted_attempts net ty delayMs
                          (List.length errors);
          requests := requests r + List.length errors;
          view := view r |}).
Proof.
  induction errors as [| e errors IH]; intros attempt lastError r Hlen Hnext.
  - simpl in *. replace (retries + 1 - attempt) with 0 by lia.
    simpl. unfold throw. rewrite app_nil_r, Nat.add_0_r.
    destruct r; reflexivity.
  - simpl in Hlen, Hnext. injection Hnext as Hrej Hrest.
    rewrite (retry_iteration_rejected _ _ _ _ _ _ e) by (lia || assumption).
    change (map axios_error (e :: errors))
      with (axios_error e :: map axios_error errors).
    rewrite last_cons_default.
    destruct errors as [| e' errors].
    + assert (Hlt : (attempt <? retries)%nat = false)
        by (apply Nat.ltb_ge; simpl in Hlen; lia).
      rewrite Hlt, IH by (simpl in *; lia || reflexivity).
      unfold issue. simpl. rewrite app_nil_r. f_equal. f_equal. lia.
    + assert (Hlt : (attempt <? retries)%nat = true)
        by (apply Nat.ltb_lt; simpl in Hlen; lia).
      rewrite Hlt, IH by (simpl in *; lia || assumption).
      unfold perform, issue. simpl. rewrite <- !app_assoc. simpl.
      f_equal. f_equal. lia.
Qed.

(** The retry loop never writes the view state. *)
Lemma retry_loop_view :
  forall (remaining attempt : nat) (lastError : unknown) (r : Runtime),
    view (snd (retry_loop net ty retries delayMs remaining attempt
                          lastError r)) = view r.
Proof.
  induction remaining as [| remaining IH]; intros attempt lastError r;
    [reflexivity |].
  simpl. destruct (attempt <=? retries)%nat; [| reflexivity].
  unfold try_catch, bind, axios_get.
  destruct (get_reply net (requests r) ty) as [response | e]; simpl;
    [reflexivity |].
  destruct (attempt <? retries)%nat; simpl; rewrite IH; reflexivity.
Qed.

End RetryExhausted.

Lemma fetchProductsWithRetry_view (net : Network) (ty : StringType)
    (retries : nat) (delayMs : Z) (r : Runtime) :
  view (snd (fetchProductsWithRetry net ty retries delayMs r)) = view r.
Proof. apply retry_loop_view. Qed.

(** C1.  [k] failing attempts, [0 <= k <= 4], followed by a successful one:
    [fetchProductsWithRetry] (with its default arguments) returns the payload
    of the successful attempt, issues exactly [k + 1] GET requests, and waits
    2000 ms after each failed attempt and before the next request; the GET
    that succeeds is the last effect, nothing is waited after it. *)
Theorem fetch_returns_payload_after_failures
    (net : Network) (ty : StringType) (r : Runtime)
    (errors : list AxiosError) (response : AxiosResponse (list Product.t)) :
  (List.length errors <= 4)%nat ->
  next_replies net ty (requests r) (S (List.length errors))
    = (map Rejected errors ++ [Fulfilled response])%list ->
  let k := List.length errors in
  let trace := (failed_attempts net ty 2000 k ++ [get_effect net ty])%list in
  fetchProductsWithRetry net ty default_retries default_delayMs r
    = (Normal (data response),
       {| effects := effects r ++ trace;
          requests := requests r + (k + 1);
          view := view r |})
  /\ count_gets trace = k + 1
  /\ count_http trace = k + 1
  /\ waits trace = repeat 2000%Z k
  /\ last trace (Wait 0) = get_effect net ty.
Proof.
  intros Hk Hnext k trace. subst k trace.
  repeat split.
  - unfold fetchProductsWithRetry, default_retries, default_delayMs.
    change 5 with (5 + 1 - 1) at 2.
    rewrite (retry_loop_succeeds net ty 5 2000%Z response errors)
      by (lia || assumption).
    f_equal. f_equal. lia.
  - rewrite failed_attempts_count. lia.
  - clear. induction errors as [| e errors IH]; [reflexivity |].
    unfold count_http in *. simpl. rewrite IH. reflexivity.
  - apply failed_attempts_waits.
  - apply last_last.
Qed.

(** C2.  Five consecutive failing attempts: [fetchProductsWithRetry] issues
    exactly five GET requests (with four delays between them) and throws the
    error of the fifth attempt. *)
Theorem fetch_throws_last_error_after_five_failures
    (net : Network) (ty : StringType) (r : Runtime)
    (e1 e2 e3 e4 e5 : AxiosError) :
  next_replies net ty (requests r) 5
    = map Rejected [e1; e2; e3; e4; e5] ->
  let trace := exhausted_attempts net ty 2000 5 in
  fetchProductsWithRetry net ty default_retries default_delayMs r
    = (Throw (axios_error e5),
       {| effects := effects r ++ trace;
          requests := requests r + 5;
          view := view r |})
  /\ count_gets trace = 5
  /\ count_http trace = 5
  /\ waits trace = repeat 2000%Z 4.
Proof.
  intros Hnext trace. subst trace. repeat split.
  unfold fetchProductsWithRetry, default_retries, default_delayMs.
  change 5 with (5 + 1 - 1) at 2.
  rewrite (retry_loop_exhausted net ty 5 2000%Z [e1; e2; e3; e4; e5])
    by (reflexivity || assumption).
  reflexivity.
Qed.

Lemma fetch_returns_payload_after_failures_witness :
  fetchProductsWithRetry (flaky_network 2) VIOLAO
    default_retries default_delayMs fresh_runtime
  = (Normal violao_list,
     {| effects :=
          [get_effect (flaky_network 2) VIOLAO; Wait 2000;
           get_effect (flaky_network 2) VIOLAO; Wait 2000;
           get_effect (flaky_network 2) VIOLAO];
        requests := 3;
        view := initialState |}).
Proof.
  exact (proj1 (fetch_returns_payload_after_failures
                  (flaky_network 2) VIOLAO fresh_runtime
                  [BadStatus 503; BadStatus 503] {| data := violao_list |}
                  ltac:(simpl; lia) eq_refl)).
Defined.

Lemma fetch_throws_last_error_after_five_failures_witness :
  fetchProductsWithRetry (flaky_network 5) GUITARRA
    default_retries default_delayMs fresh_runtime
  = (Throw (axios_error (BadStatus 503)),
     {| effects := exhausted_attempts (flaky_network 5) GUITARRA 2000 5;
        requests := 5;
        view := initialState |}).
Proof.
  exact (proj1 (fetch_throws_last_error_after_five_failures
                  (flaky_network 5) GUITARRA fresh_runtime
                  (BadStatus 503) (BadStatus 503) (BadStatus 503)
                  (BadStatus 503) (BadStatus 503) eq_refl)).
Defined.

(* ================================================================== *)
(** * The product-loading effect: results *)
(* ================================================================== *)

(** The effect is its first half, the fetch, and the promise callbacks run on
    the completion of the fetch. *)
Lemma loadProductsEffect_callbacks (net : Network) (r : Runtime) :
  loadProductsEffect net r
  = (update (setLoading true) ;;
     selected <- read selectedType ;;
     c <- attempt (fetchProductsWithRetry net selected
                     default_retries default_delayMs) ;;
     productsSettled c) r.
Proof.
  unfold loadProductsEffect, productsSettled, bind, try_finally, try_catch,
    attempt, resume, update, read.
  simpl.
  destruct (fetchProductsWithRetry net _ default_retries default_delayMs _)
    as [[data | v] r']; reflexivity.
Qed.

(** A fulfilled fetch: the callbacks store the payload and clear both
    flags. *)
Lemma productsSettled_fulfilled (payload : list Product.t) (r : Runtime) :
  productsSettled (Normal payload) r
  = (Normal tt,
     {| effects := effects r; requests := requests r;
        view := setLoading false
                  (setHasError false (setProducts payload (view r))) |}).
Proof. reflexivity. Qed.

(** A rejected fetch: the callbacks raise the error flag, log, and clear the
    loading flag. *)
Lemma productsSettled_rejected (v : unknown) (r : Runtime) :
  productsSettled (Throw v) r
  = (Normal tt,
     {| effects := effects r ++ [ConsoleError fetch_error_message v];
        requests := requests r;
        view := setLoading false (setHasError true (view r)) |}).
Proof. reflexivity. Qed.

(** C9.  When the fetch of the effect succeeds, the stored product list
    becomes exactly the fetched payload, whatever list was stored before: an
    element is in the new list if and only if it is in the payload, and every
    other state cell keeps its value except the two flags, which are
    cleared. *)
Theorem successful_fetch_replaces_products
    (net : Network) (r r' : Runtime) (payload : list Product.t) :
  fetchProductsWithRetry net (selectedType (view r))
    default_retries default_delayMs (exec (update (setLoading true)) r)
  = (Normal payload, r') ->
  view (exec (loadProductsEffect net) r)
  = {| products := payload; loading := false; hasError := false;
       selectedType := selectedType (view r);
       aiModalOpen := aiModalOpen (view r);
       aiReviewLoading := aiReviewLoading (view r);
       aiReviewError := aiReviewError (view r);
       aiReviewData := aiReviewData (view r);
       aiReviewProduct := aiReviewProduct (view r) |}
  /\ (forall p, In p (products (view (exec (loadProductsEffect net) r)))
                <-> In p payload).
Proof.
  intros Hfetch.
  assert (Hview : view r' = setLoading true (view r)).
  { pose proof (fetchProductsWithRetry_view net (selectedType (view r))
                  default_retries default_delayMs
                  (exec (update (setLoading true)) r)) as Hframe.
    rewrite Hfetch in Hframe. exact Hframe. }
  assert (Hfinal : view (exec (loadProductsEffect net) r)
                   = setLoading false
                       (setHasError false (setProducts payload (view r')))).
  { unfold exec. rewrite loadProductsEffect_callbacks.
    unfold bind at 1. simpl. unfold bind at 1. simpl.
    unfold bind, attempt. unfold exec in Hfetch. simpl in Hfetch.
    rewrite Hfetch. reflexivity. }
  rewrite Hfinal, Hview. split; [reflexivity |].
  intros p. reflexivity.
Qed.

(** C10.  When the fetch of the effect fails (all retries used), the stored
    product list is the one stored before; the error flag becomes [true], the
    loading flag [false], and no other state cell changes.  The error is
    logged to the console. *)
Theorem failed_fetch_keeps_products
    (net : Network) (r r' : Runtime) (err : unknown) :
  fetchProductsWithRetry net (selectedType (view r))
    default_retries default_delayMs (exec (update (setLoading true)) r)
  = (Throw err, r') ->
  view (exec (loadProductsEffect net) r)
  = {| products := products (view r); loading := false; hasError := true;
       selectedType := selectedType (view r);
       aiModalOpen := aiModalOpen (view r);
       aiReviewLoading := aiReviewLoading (view r);
       aiReviewError := aiReviewError (view r);
       aiReviewData := aiReviewData (view r);
       aiReviewProduct := aiReviewProduct (view r) |}
  /\ effects (exec (loadProductsEffect net) r)
     = (effects r' ++ [ConsoleError fetch_error_message err])%list.
Proof.
  intros Hfetch.
  assert (Hview : view r' = setLoading true (view r)).
  { pose proof (fetchProductsWithRetry_view net (selectedType (view r))
                  default_retries default_delayMs
                  (exec (update (setLoading true)) r)) as Hframe.
    rewrite Hfetch in Hframe. exact Hframe. }
  assert (Hfinal : exec (loadProductsEffect net) r
                   = snd (productsSettled (Throw err) r')).
  { unfold exec. rewrite loadProductsEffect_callbacks.
    unfold bind at 1. simpl. unfold bind at 1. simpl.
    unfold bind, attempt. unfold exec in Hfetch. simpl in Hfetch.
    rewrite Hfetch. reflexivity. }
  rewrite Hfinal, productsSettled_rejected. simpl. rewrite Hview.
  split; reflexivity.
Qed.

Lemma successful_fetch_replaces_products_witness :
  view (exec (loadProductsEffect (flaky_network 1)) stale_runtime)
  = {| products := violao_list; loading := false; hasError := false;
       selectedType := VIOLAO; aiModalOpen := false;
       aiReviewLoading := false; aiReviewError := None;
       aiReviewData := Some sample_review; aiReviewProduct := None |}.
Proof.
  refine (proj1 (successful_fetch_replaces_products
                   (flaky_network 1) stale_runtime _ violao_list _)).
  vm_compute. reflexivity.
Defined.

Lemma failed_fetch_keeps_products_witness :
  view (exec (loadProductsEffect (flaky_network 5)) stale_runtime)
  = {| products := guitarra_list; loading := false; hasError := true;
       selectedType := VIOLAO; aiModalOpen := false;
       aiReviewLoading := false; aiReviewError := None;
       aiReviewData := Some sample_review; aiReviewProduct := None |}.
Proof.
  refine (proj1 (failed_fetch_keeps_products
                   (flaky_network 5) stale_runtime _
                   (axios_error (BadStatus 503)) _)).
  vm_compute. reflexivity.
Defined.

(* ================================================================== *)
(** * AI review request: results *)
(* ================================================================== *)

(** [handleGenerateAiReview] is its synchronous first half, the POST, and the
    continuation run on the completion of the POST. *)
Lemma handleGenerateAiReview_continuation
    (net : Network) (product : Product.t) (r : Runtime) :
  handleGenerateAiReview net product r
  = (reviewRequested product ;;
     c <- attempt (axios_post net (API_BASE_URL net ++ "/strings/ai-review")
                              (ai_review_body product) 25000) ;;
     reviewSettled c) r.
Proof.
  unfold handleGenerateAiReview, reviewRequested, reviewSettled, bind,
    try_finally, try_catch, attempt, resume, update, axios_post.
  simpl.
  destruct (post_reply net (requests r) (ai_review_body product));
    reflexivity.
Qed.

(** C6.  For every product and every state, [handleGenerateAiReview] issues
    one HTTP request, the POST of the six display fields to
    [/strings/ai-review] with a timeout of 25000 ms, whether the request is
    fulfilled or rejected.  When it is rejected nothing more is sent, the
    error is logged and the error indicator [aiReviewError] is set.  When it
    is fulfilled the review of the response is stored and displayed, whatever
    review was stored before. *)
Theorem handleGenerateAiReview_single_post
    (net : Network) (product : Product.t) (r : Runtime) :
  let r' := exec (handleGenerateAiReview net product) r in
  let sent := skipn (List.length (effects r)) (effects r') in
  ai_review_body product
    = {| AiReviewRequest.title := Product.title product;
         AiReviewRequest.price := Product.price product;
         AiReviewRequest.ratingAvg := Product.ratingAvg product;
         AiReviewRequest.ratingCount := Product.ratingCount product;
         AiReviewRequest.type := Product.type product;
         AiReviewRequest.permalink := Product.permalink product |}
  /\ firstn (List.length (effects r)) (effects r') = effects r
  /\ count_http sent = 1
  /\ filter is_http sent = [post_effect net product]
  /\ requests r' = S (requests r)
  /\ match post_reply net (requests r) (ai_review_body product) with
     | Rejected e =>
         sent = [post_effect net product;
                 ConsoleError ai_review_log_message (axios_error e)]
         /\ aiReviewError (view r') = Some ai_review_error_message
         /\ aiReviewData (view r') = None
         /\ displayedReview (view r') = None
     | Fulfilled response =>
         sent = [post_effect net product]
         /\ aiReviewError (view r') = None
         /\ aiReviewData (view r')
            = Some (AiReviewResponse.review (data response))
         /\ displayedReview (view r')
            = Some (AiReviewResponse.review (data response))
     end
  /\ aiReviewLoading (view r') = false
  /\ aiModalOpen (view r') = true
  /\ aiReviewProduct (view r') = Some product.
Proof.
  intros r' sent. subst sent r'.
  unfold exec, handleGenerateAiReview, bind, try_finally, try_catch, update,
    axios_post, console_error, perform, issue, post_effect.
  simpl.
  destruct (post_reply net (requests r) (ai_review_body product))
    as [response | e]; simpl;
    rewrite <- ?app_assoc;
    rewrite ?firstn_app, ?skipn_app, ?Nat.sub_diag, ?firstn_all, ?skipn_all;
    simpl; rewrite ?app_nil_r; repeat split; reflexivity.
Qed.

(* ================================================================== *)
(** * Derived view state: results *)
(* ================================================================== *)

Lemma topProduct_find (products : list Product.t) :
  topProduct products
  = match find rank_is_1 products with
    | Some product => Some product
    | None => hd_error products
    end.
Proof.
  unfold topProduct. fold rank_is_1.
  destruct (find rank_is_1 products); [reflexivity |].
  destruct products; reflexivity.
Qed.

Lemma find_first {A} (f : A -> bool) (before after : list A) (x : A) :
  f x = true ->
  (forall y, In y before -> f y = false) ->
  find f (before ++ x :: after) = Some x.
Proof.
  intros Hx. induction before as [| b before IH]; intros Hbefore; simpl.
  - now rewrite Hx.
  - rewrite (Hbefore b) by now left.
    apply IH. intros y Hy. apply Hbefore. now right.
Qed.

(** When exactly one element carries rank 1, it is the top product. *)
Lemma topProduct_unique_rank_1 (products : list Product.t) (p : Product.t) :
  In p products ->
  rank_is_1 p = true ->
  (forall q, In q products -> rank_is_1 q = true -> q = p) ->
  topProduct products = Some p.
Proof.
  intros Hin Hrank Huniq. rewrite topProduct_find.
  destruct (find rank_is_1 products) as [x |] eqn:Hfind.
  - apply find_some in Hfind as [Hx Hx1]. f_equal. now apply Huniq.
  - pose proof (find_none _ _ Hfind p Hin) as Hno. congruence.
Qed.

(** C3.  The top product is the element whose rank is 1 wherever it stands
    in the list (the first such element, should several carry rank 1); a
    non-empty list with no element of rank 1 has its first element as top
    product. *)
Theorem topProduct_rank_1_or_first :
  (forall (before after : list Product.t) (p : Product.t),
      rank_is_1 p = true ->
      (forall q, In q before -> rank_is_1 q = false) ->
      topProduct (before ++ p :: after) = Some p)
  /\ (forall (p : Product.t) (rest : list Product.t),
         (forall q, In q (p :: rest) -> rank_is_1 q = false) ->
         topProduct (p :: rest) = Some p).
Proof.
  split.
  - intros before after p Hp Hbefore. rewrite topProduct_find.
    now rewrite (find_first rank_is_1 before after p Hp Hbefore).
  - intros p rest Hnone. rewrite topProduct_find.
    destruct (find rank_is_1 (p :: rest)) as [x |] eqn:Hfind;
      [| reflexivity].
    apply find_some in Hfind as [Hx Hx1].
    rewrite (Hnone x Hx) in Hx1. discriminate.
Qed.

Lemma topProduct_rank_1_or_first_witness :
  topProduct ranks_3_1_2 = Some (sample_product "a" VIOLINO 1 50)
  /\ topProduct ranks_4_2 = Some (sample_product "d" CAVAQUINHO 4 35).
Proof.
  split.
  - apply (proj1 topProduct_rank_1_or_first
             [sample_product "c" VIOLINO 3 30]
             [sample_product "b" VIOLINO 2 20]
             (sample_product "a" VIOLINO 1 50)).
    + reflexivity.
    + intros q [<- | []]. reflexivity.
  - apply (proj2 topProduct_rank_1_or_first).
    intros q [<- | [<- | []]]; reflexivity.
Defined.

(** ** Price bounds *)

Section NumberOrder.

Import Js.

Lemma number_le_refl (x : number) : isNaN x = false -> le x x.
Proof. destruct x; simpl; try easy. intros _. apply Qle_refl. Qed.

Lemma number_le_trans (x y z : number) : le x y -> le y z -> le x z.
Proof.
  destruct x, y, z; simpl; try easy. apply Qle_trans.
Qed.

Lemma lt_true_le (x y : number) : lt x y = true -> le x y.
Proof.
  destruct x as [a | | |], y as [b | | |]; simpl; try easy.
  intros H. apply negb_true_iff in H.
  apply Qlt_le_weak, Qnot_le_lt. intros Hle.
  apply Qle_bool_iff in Hle. congruence.
Qed.

Lemma lt_false_le (x y : number) :
  isNaN x = false -> isNaN y = false -> lt x y = false -> le y x.
Proof.
  destruct x as [a | | |], y as [b | | |]; simpl; try easy.
  intros _ _ H. apply negb_false_iff in H. now apply Qle_bool_iff.
Qed.

Lemma scan_lowest (args : list number) :
  forall lowest,
    isNaN lowest = false ->
    (forall x, In x args -> isNaN x = false) ->
    let m := fold_left keep_lower args lowest in
    (m = lowest \/ In m args)
    /\ le m lowest
    /\ (forall x, In x args -> le m x).
Proof.
  induction args as [| a args IH]; intros lowest Hlow Hargs; simpl.
  - repeat split; [now left | now apply number_le_refl | easy].
  - assert (Ha : isNaN a = false) by (apply Hargs; now left).
    assert (Hstep : isNaN (keep_lower lowest a) = false
                    /\ le (keep_lower lowest a) lowest
                    /\ le (keep_lower lowest a) a
                    /\ (keep_lower lowest a = lowest
                        \/ keep_lower lowest a = a)).
    { unfold keep_lower. destruct (lt a lowest) eqn:Hlt.
      - repeat split; [assumption | now apply lt_true_le
                      | now apply number_le_refl | now right].
      - repeat split; [assumption | now apply number_le_refl
                      | now apply lt_false_le | now left]. }
    destruct Hstep as (Hnan & Hle1 & Hle2 & Hwhich).
    destruct (IH (keep_lower lowest a) Hnan
                 (fun x Hx => Hargs x (or_intror Hx)))
      as (Hin & Hle & Hall).
    repeat split.
    + destruct Hin as [-> | Hin]; [| now right; right].
      destruct Hwhich as [-> | ->]; [now left | now right; left].
    + eapply number_le_trans; eassumption.
    + intros x [<- | Hx]; [eapply number_le_trans; eassumption | now apply Hall].
Qed.

Lemma scan_highest (args : list number) :
  forall highest,
    isNaN highest = false ->
    (forall x, In x args -> isNaN x = false) ->
    let m := fold_left keep_higher args highest in
    (m = highest \/ In m args)
    /\ le highest m
    /\ (forall x, In x args -> le x m).
Proof.
  induction args as [| a args IH]; intros highest Hhigh Hargs; simpl.
  - repeat split; [now left | now apply number_le_refl | easy].
  - assert (Ha : isNaN a = false) by (apply Hargs; now left).
    assert (Hstep : isNaN (keep_higher highest a) = false
                    /\ le highest (keep_higher highest a)
                    /\ le a (keep_higher highest a)
                    /\ (keep_higher highest a = highest
                        \/ keep_higher highest a = a)).
    { unfold keep_higher. destruct (lt highest a) eqn:Hlt.
      - repeat split; [assumption | now apply lt_true_le
                      | now apply number_le_refl | now right].
      - repeat split; [assumption | now apply number_le_refl
                      | now apply lt_false_le | now left]. }
    destruct Hstep as (Hnan & Hle1 & Hle2 & Hwhich).
    destruct (IH (keep_higher highest a) Hnan
                 (fun x Hx => Hargs x (or_intror Hx)))
      as (Hin & Hle & Hall).
    repeat split.
    + destruct Hin as [-> | Hin]; [| now right; right].
      destruct Hwhich as [-> | ->]; [now left | now right; left].
    + eapply number_le_trans; eassumption.
    + intros x [<- | Hx]; [eapply number_le_trans; eassumption | now apply Hall].
Qed.

Lemma no_NaN_existsb (args : list number) :
  (forall x, In x args -> isNaN x = false) -> existsb isNaN args = false.
Proof.
  intros H. induction args as [| a args IH]; [reflexivity |]. simpl.
  rewrite (H a) by now left. apply IH. intros x Hx. apply H. now right.
Qed.

(** [Math.min] of at least one argument, none of them [NaN], is one of the
    arguments and is below every argument. *)
Lemma Math_min_is_minimum (args : list number) :
  args <> [] ->
  (forall x, In x args -> isNaN x = false) ->
  In (Math_min args) args /\ (forall x, In x args -> le (Math_min args) x).
Proof.
  intros Hne Hnan. unfold Math_min. rewrite (no_NaN_existsb args Hnan).
  destruct (scan_lowest args PosInfinity eq_refl Hnan) as (Hin & _ & Hall).
  split; [| exact Hall].
  destruct Hin as [Heq | Hin]; [| exact Hin].
  destruct args as [| a args]; [congruence |].
  pose proof (Hall a (or_introl eq_refl)) as Hle.
  pose proof (Hnan a (or_introl eq_refl)) as Ha.
  rewrite Heq in Hle |- *.
  destruct a; simpl in *; try easy. now left.
Qed.

Lemma Math_max_is_maximum (args : list number) :
  args <> [] ->
  (forall x, In x args -> isNaN x = false) ->
  In (Math_max args) args /\ (forall x, In x args -> le x (Math_max args)).
Proof.
  intros Hne Hnan. unfold Math_max. rewrite (no_NaN_existsb args Hnan).
  destruct (scan_highest args NegInfinity eq_refl Hnan) as (Hin & _ & Hall).
  split; [| exact Hall].
  destruct Hin as [Heq | Hin]; [| exact Hin].
  destruct args as [| a args]; [congruence |].
  pose proof (Hall a (or_introl eq_refl)) as Hle.
  pose proof (Hnan a (or_introl eq_refl)) as Ha.
  rewrite Heq in Hle |- *.
  destruct a; simpl in *; try easy. now left.
Qed.

End NumberOrder.

(** C5.  For a non-empty product list (whose prices are numbers, not
    [NaN]), [lowestPrice] is the price of some product of the list and no
    product is cheaper, and [highestPrice] is the price of some product of
    the list and no product is dearer; for the empty list both are 0. *)
Theorem price_bounds_are_min_and_max :
  (forall products : list Product.t,
      products <> [] ->
      prices_are_numbers products ->
      (In (lowestPrice products) (map Product.price products)
       /\ forall p, In p products ->
                    Js.le (lowestPrice products) (Product.price p))
      /\ (In (highestPrice products) (map Product.price products)
          /\ forall p, In p products ->
                       Js.le (Product.price p) (highestPrice products)))
  /\ lowestPrice [] = Js.of_Z 0
  /\ highestPrice [] = Js.of_Z 0.
Proof.
  split; [| split; reflexivity].
  intros products Hne Hnum.
  assert (Hargs : forall x, In x (map Product.price products)
                            -> Js.isNaN x = false).
  { intros x Hx. apply in_map_iff in Hx as (p & <- & Hp). now apply Hnum. }
  assert (Hmap : map Product.price products <> []).
  { destruct products; [congruence | discriminate]. }
  unfold lowestPrice, highestPrice.
  destruct products as [| p0 rest]; [congruence |].
  change (negb (List.length (p0 :: rest) =? 0)%nat) with true. cbv iota.
  destruct (Math_min_is_minimum _ Hmap Hargs) as (Hin & Hlow).
  destruct (Math_max_is_maximum _ Hmap Hargs) as (Hin' & Hhigh).
  repeat split; try assumption.
  - intros p Hp. apply Hlow. now apply in_map.
  - intros p Hp. apply Hhigh. now apply in_map.
Qed.

Lemma price_bounds_are_min_and_max_witness :
  lowestPrice ranks_3_1_2 = Js.of_Z 20
  /\ highestPrice ranks_3_1_2 = Js.of_Z 50
  /\ (In (lowestPrice ranks_3_1_2) (map Product.price ranks_3_1_2)
      /\ forall p, In p ranks_3_1_2 ->
                   Js.le (lowestPrice ranks_3_1_2) (Product.price p)).
Proof.
  split; [reflexivity | split; [reflexivity |]].
  apply (proj1 price_bounds_are_min_and_max ranks_3_1_2).
  - discriminate.
  - intros p [<- | [<- | [<- | []]]]; reflexivity.
Defined.

(* ================================================================== *)
(** * Base URL resolution: results *)
(* ================================================================== *)

Section Matching.

Import Js.

Lemma append_empty_r (s : string) : s ++ "" = s.
Proof. induction s as [| c s IH]; simpl; [| rewrite IH]; reflexivity. Qed.

Lemma match_literal_sound (lit : string) :
  forall s rest,
    match_literal lit s = Some rest ->
    exists m, s = m ++ rest /\ lowercase m = lowercase lit.
Proof.
  induction lit as [| a lit IH]; intros s rest H; simpl in H.
  - injection H as <-. now exists "".
  - destruct s as [| b s]; [discriminate |].
    destruct (Ascii.eqb (to_lower a) (to_lower b)) eqn:Hab;
      [| discriminate].
    apply Ascii.eqb_eq in Hab.
    destruct (IH s rest H) as (m & -> & Hm).
    exists (String b m). simpl. now rewrite Hm, Hab.
Qed.

Lemma match_literal_complete (lit : string) :
  forall m rest,
    lowercase m = lowercase lit ->
    match_literal lit (m ++ rest) = Some rest.
Proof.
  induction lit as [| a lit IH]; intros m rest H.
  - destruct m; [reflexivity | discriminate].
  - destruct m as [| b m]; [discriminate |].
    simpl in H. injection H as Hab Hm. simpl.
    rewrite Hab, Ascii.eqb_refl. now apply IH.
Qed.

Lemma test_anchored_spec (alternatives : list string) (s : string) :
  test_anchored alternatives s = true
  <-> exists lit, In lit alternatives /\ lowercase s = lowercase lit.
Proof.
  unfold test_anchored. rewrite existsb_exists. split.
  - intros (lit & Hin & H). exists lit. split; [assumption |].
    destruct (match_literal lit s) as [[| c rest] |] eqn:Hm;
      try discriminate.
    apply match_literal_sound in Hm as (m & -> & Hm).
    now rewrite append_empty_r.
  - intros (lit & Hin & H). exists lit. split; [assumption |].
    rewrite <- (append_empty_r s).
    now rewrite (match_literal_complete lit s "" H).
Qed.

Lemma test_unanchored_unfold (alternatives : list string) (s : string) :
  test_unanchored alternatives s
  = (existsb (fun lit => match match_literal lit s with
                         | Some _ => true
                         | None => false
                         end) alternatives
     || match s with
        | EmptyString => false
        | String _ rest => test_unanchored alternatives rest
        end)%bool.
Proof. destruct s; reflexivity. Qed.

Lemma test_unanchored_spec (alternatives : list string) (s : string) :
  test_unanchored alternatives s = true
  <-> exists before m after lit,
        s = before ++ m ++ after
        /\ In lit alternatives /\ lowercase m = lowercase lit.
Proof.
  split.
  - induction s as [| c s IH]; rewrite test_unanchored_unfold; intros H;
      apply orb_true_iff in H as [H | H]; try discriminate.
    + apply existsb_exists in H as (lit & Hin & H).
      destruct (match_literal lit "") as [rest |] eqn:Hm; [| discriminate].
      apply match_literal_sound in Hm as (m & Hs & Hm).
      now exists "", m, rest, lit.
    + apply existsb_exists in H as (lit & Hin & H).
      destruct (match_literal lit (String c s)) as [rest |] eqn:Hm;
        [| discriminate].
      apply match_literal_sound in Hm as (m & Hs & Hm).
      now exists "", m, rest, lit.
    + destruct (IH H) as (before & m & after & lit & -> & Hin & Hm).
      now exists (String c before), m, after, lit.
  - intros (before & m & after & lit & -> & Hin & Hm).
    induction before as [| c before IH]; rewrite test_unanchored_unfold;
      apply orb_true_iff.
    + left. apply existsb_exists. exists lit. split; [assumption |].
      simpl. now rewrite (match_literal_complete lit m after Hm).
    + right. exact IH.
Qed.

End Matching.

Lemma isLocalHost_spec (hostname : string) :
  Js.test_anchored loopback_names hostname = true
  <-> is_localhost_literal hostname.
Proof.
  rewrite test_anchored_spec. unfold is_localhost_literal. split.
  - intros (lit & Hin & ->).
    destruct Hin as [<- | [<- | []]]; simpl; auto.
  - intros H. exists (Js.lowercase hostname). split; [assumption |].
    destruct H as [<- | [<- | []]]; reflexivity.
Qed.

Lemma envPointsToLocal_spec (url : string) :
  Js.test_unanchored loopback_names url = true <-> contains_localhost_literal url.
Proof.
  rewrite test_unanchored_spec. unfold contains_localhost_literal, is_localhost_literal.
  split.
  - intros (before & m & after & lit & -> & Hin & Hm).
    exists before, m, after. split; [reflexivity |]. rewrite Hm.
    destruct Hin as [<- | [<- | []]]; simpl; auto.
  - intros (before & m & after & -> & H).
    exists before, m, after, (Js.lowercase m).
    repeat split; [assumption |].
    destruct H as [<- | [<- | []]]; reflexivity.
Qed.

(** With an override that is not blank, the function is the guard on the two
    regular expressions. *)
Lemma resolveApiBaseUrl_guard (override hostname : string) :
  Js.trim override <> "" ->
  resolveApiBaseUrl (override_env override hostname)
  = if negb (Js.test_anchored loopback_names hostname)
       && Js.test_unanchored loopback_names
            (Js.replace_trailing_slash (Js.trim override))
    then DEFAULT_API_URL
    else Js.replace_trailing_slash (Js.trim override).
Proof.
  intros Hne. unfold resolveApiBaseUrl, override_env. simpl.
  assert (Hsame : (if String.eqb override "" then "" else override)
                  = override).
  { destruct (String.eqb_spec override ""); congruence. }
  rewrite Hsame.
  destruct (String.eqb_spec (Js.trim override) ""); [contradiction |].
  reflexivity.
Qed.

(** X25.  Without an override, or with one that is empty or only white
    space, the hard-coded default is returned, on any host. *)
Lemma resolveApiBaseUrl_without_override (env : Environment) :
  match VITE_API_URL env with
  | Some v => Js.trim v = ""
  | None => True
  end ->
  resolveApiBaseUrl env = DEFAULT_API_URL.
Proof.
  unfold resolveApiBaseUrl. destruct (VITE_API_URL env) as [v |].
  - intros Hblank. destruct (String.eqb v ""); [reflexivity |].
    now rewrite Hblank.
  - reflexivity.
Qed.

(** X26.  Outside a browser ([window] undefined) the override is not
    checked against loopback: a non-blank override is returned, trimmed and
    without one trailing slash, even when it is a loopback address. *)
Lemma resolveApiBaseUrl_without_window (override : string) :
  Js.trim override <> "" ->
  resolveApiBaseUrl {| VITE_API_URL := Some override;
                       window_location_hostname := None |}
  = Js.replace_trailing_slash (Js.trim override).
Proof.
  intros Hne. unfold resolveApiBaseUrl. simpl.
  assert (Hsame : (if String.eqb override "" then "" else override)
                  = override).
  { destruct (String.eqb_spec override ""); congruence. }
  rewrite Hsame.
  destruct (String.eqb_spec (Js.trim override) ""); [contradiction |].
  reflexivity.
Qed.

(** The two names the code accepts are loopback host names; the converse
    fails. *)
Lemma localhost_literal_is_loopback (name : string) :
  is_localhost_literal name -> loopback_host name.
Proof.
  intros [H | [H | []]].
  - apply loopback_localhost. now rewrite <- H.
  - assert (Hname : name = "127.0.0.1").
    { clear -H. do 9 (destruct name as [| ? name]; [discriminate |]).
      destruct name; [| discriminate].
      simpl in H. injection H as H1 H2 H3 H4 H5 H6 H7 H8 H9.
      repeat match goal with
             | Hc : _ = Js.to_lower ?c |- _ =>
                 destruct c as [[] [] [] [] [] [] [] []]; try discriminate Hc;
                 clear Hc
             end.
      reflexivity. }
    rewrite Hname. exact (loopback_ipv4 0 0 1 ltac:(lia) ltac:(lia) ltac:(lia)).
Qed.





(* ================================================================== *)
(** * The page machine: results *)
(* ================================================================== *)

Lemma StringType_eqb_eq (a b : StringType) :
  StringType_eqb a b = true <-> a = b.
Proof. destruct a, b; simpl; split; congruence. Qed.

Lemma StringType_eqb_neq (a b : StringType) :
  a <> b -> StringType_eqb a b = false.
Proof.
  intros H. destruct (StringType_eqb a b) eqn:E; [| reflexivity].
  apply StringType_eqb_eq in E. contradiction.
Qed.

Lemma is_pending_In (request : nat) (pending : list nat) :
  is_pending request pending = true <-> In request pending.
Proof.
  unfold is_pending. rewrite existsb_exists. split.
  - intros (k & Hin & Heq). apply Nat.eqb_eq in Heq. now subst.
  - intros Hin. exists request. split; [assumption | apply Nat.eqb_refl].
Qed.

Lemma In_settle (k request : nat) (pending : list nat) :
  In k (settle request pending) <-> In k pending /\ k <> request.
Proof.
  unfold settle. rewrite filter_In, negb_true_iff, Nat.eqb_neq.
  intuition congruence.
Qed.

(** A pending fetch that is fulfilled stores its payload, whichever request
    it is and whatever the selected filter is by then. *)
Lemma step_FetchSettled_fulfilled (pg : Page) (request : nat)
    (payload : list Product.t) :
  In request (pendingFetches pg) ->
  let pg' := step pg (FetchSettled request (Normal payload)) in
  shown pg' = setLoading false
                (setHasError false (setProducts payload (shown pg)))
  /\ initiated pg' = initiated pg
  /\ pendingFetches pg' = settle request (pendingFetches pg).
Proof.
  intros Hin. apply is_pending_In in Hin. simpl. rewrite Hin.
  repeat split.
Qed.

Lemma step_ClickFilter_changed (pg : Page) (value : StringType) :
  value <> selectedType (shown pg) ->
  let pg' := step pg (ClickFilter value) in
  shown pg' = setLoading true (setSelectedType value (shown pg))
  /\ initiated pg' = (initiated pg ++ [value])%list
  /\ pendingFetches pg'
     = (pendingFetches pg ++ [List.length (initiated pg)])%list.
Proof.
  intros Hneq. simpl. unfold shown in Hneq.
  rewrite (StringType_eqb_neq _ _ Hneq). repeat split.
Qed.

Lemma latestRequest_snoc (pg : Page) (value : StringType) :
  forall pg',
    initiated pg' = (initiated pg ++ [value])%list ->
    latestRequest pg' = Some (List.length (initiated pg), value).
Proof.
  intros pg' H. unfold latestRequest. rewrite H, rev_unit, length_app.
  simpl. do 2 f_equal. lia.
Qed.

(** The numbering invariant holds on every page the machine reaches. *)
Lemma well_numbered_mount : well_numbered mount.
Proof. split; simpl; repeat constructor. Qed.

Lemma well_numbered_step (pg : Page) (ev : PageEvent) :
  well_numbered pg -> well_numbered (step pg ev).
Proof.
  intros [Hf Hr]. rewrite Forall_forall in Hf, Hr.
  destruct ev as [value | request c | card | request c |]; simpl.
  - destruct (StringType_eqb value _); [split; now apply Forall_forall |].
    split; apply Forall_forall; simpl; [| exact Hr].
    intros k Hk. rewrite length_app. simpl.
    apply in_app_or in Hk as [Hk | [<- | []]]; [apply Hf in Hk |]; lia.
  - destruct (is_pending request _); [| split; now apply Forall_forall].
    split; apply Forall_forall; simpl; [| exact Hr].
    intros k Hk. apply In_settle in Hk as [Hk _]. now apply Hf.
  - destruct (loading _); [split; now apply Forall_forall |].
    destruct (nth_error _ card); [| split; now apply Forall_forall].
    split; apply Forall_forall; simpl; [exact Hf |].
    intros k Hk.
    apply in_app_or in Hk as [Hk | [<- | []]]; [apply Hr in Hk |]; lia.
  - destruct (is_pending request _); [| split; now apply Forall_forall].
    split; apply Forall_forall; simpl; [exact Hf |].
    intros k Hk. apply In_settle in Hk as [Hk _]. now apply Hr.
  - destruct (aiModalOpen _); split; now apply Forall_forall.
Qed.

Lemma well_numbered_run (evs : list PageEvent) :
  forall pg, well_numbered pg -> well_numbered (run pg evs).
Proof.
  induction evs as [| ev evs IH]; intros pg H; [exact H |].
  apply IH. now apply well_numbered_step.
Qed.

(** C7, as stated, fails.  The filter is changed to [GUITARRA] while the
    fetch for [VIOLAO] is pending; the fetch initiated last (request 1, for
    [GUITARRA]) is fulfilled first and the older one after it.  Nothing is
    pending at the end, the selected filter and the latest request are
    [GUITARRA], and the list displayed is the payload of the older request:
    products for [VIOLAO]. *)
Lemma late_response_overwrites_latest_request :
  let final := run mount late_response_events in
  latestRequest final = Some (1, GUITARRA)
  /\ selectedType (shown final) = GUITARRA
  /\ pendingFetches final = []
  /\ loading (shown final) = false
  /\ products (shown final) = violao_list
  /\ products (shown final) <> guitarra_list
  /\ Forall (fun p => Product.type p = VIOLAO) (products (shown final)).
Proof.
  cbv zeta. repeat split.
  - discriminate.
  - repeat constructor.
Qed.

(** C7, amended.  A filter other than the selected one is chosen while a
    fetch is pending; a new fetch is initiated and both are pending.  When
    both are fulfilled, the list displayed at the end is the payload of the
    fetch that is fulfilled last: the payload of the request initiated last
    when the older one is fulfilled first, the payload of the older request
    when it is fulfilled after the newer one.  The selected filter is the new
    one in both orders. *)
Theorem last_fulfilled_fetch_is_displayed
    (pg : Page) (old : nat) (value : StringType)
    (payload_old payload_new : list Product.t) :
  well_numbered pg ->
  In old (pendingFetches pg) ->
  value <> selectedType (shown pg) ->
  let new := List.length (initiated pg) in
  let pg1 := step pg (ClickFilter value) in
  let in_order := run pg1 [FetchSettled old (Normal payload_old);
                           FetchSettled new (Normal payload_new)] in
  let reversed := run pg1 [FetchSettled new (Normal payload_new);
                           FetchSettled old (Normal payload_old)] in
  latestRequest pg1 = Some (new, value)
  /\ In old (pendingFetches pg1) /\ In new (pendingFetches pg1)
  /\ (products (shown in_order) = payload_new
      /\ selectedType (shown in_order) = value)
  /\ (products (shown reversed) = payload_old
      /\ selectedType (shown reversed) = value).
Proof.
  intros [Hnum _] Hold Hneq new pg1 in_order reversed.
  assert (Hlt : old <> new).
  { rewrite Forall_forall in Hnum. apply Hnum in Hold. subst new. lia. }
  destruct (step_ClickFilter_changed pg value Hneq) as (Hshown & Hinit & Hpend).
  fold pg1 in Hshown, Hinit, Hpend.
  assert (Hold1 : In old (pendingFetches pg1))
    by (rewrite Hpend; apply in_or_app; now left).
  assert (Hnew1 : In new (pendingFetches pg1))
    by (rewrite Hpend; apply in_or_app; right; now left).
  split; [now apply (latestRequest_snoc pg value) |].
  split; [exact Hold1 |]. split; [exact Hnew1 |].
  split.
  - subst in_order.
    change (shown (run pg1 [FetchSettled old (Normal payload_old);
                            FetchSettled new (Normal payload_new)]))
      with (shown (step (step pg1 (FetchSettled old (Normal payload_old)))
                        (FetchSettled new (Normal payload_new)))).
    destruct (step_FetchSettled_fulfilled pg1 old payload_old Hold1)
      as (Hs1 & _ & Hp1).
    set (pg2 := step pg1 (FetchSettled old (Normal payload_old))) in *.
    assert (Hnew2 : In new (pendingFetches pg2))
      by (rewrite Hp1; apply In_settle; split; [assumption | congruence]).
    destruct (step_FetchSettled_fulfilled pg2 new payload_new Hnew2)
      as (Hs2 & _ & _).
    rewrite Hs2, Hs1, Hshown. split; reflexivity.
  - subst reversed.
    change (shown (run pg1 [FetchSettled new (Normal payload_new);
                            FetchSettled old (Normal payload_old)]))
      with (shown (step (step pg1 (FetchSettled new (Normal payload_new)))
                        (FetchSettled old (Normal payload_old)))).
    destruct (step_FetchSettled_fulfilled pg1 new payload_new Hnew1)
      as (Hs1 & _ & Hp1).
    set (pg2 := step pg1 (FetchSettled new (Normal payload_new))) in *.
    assert (Hold2 : In old (pendingFetches pg2))
      by (rewrite Hp1; apply In_settle; split; assumption).
    destruct (step_FetchSettled_fulfilled pg2 old payload_old Hold2)
      as (Hs2 & _ & _).
    rewrite Hs2, Hs1, Hshown. split; reflexivity.
Qed.

Lemma last_fulfilled_fetch_is_displayed_witness :
  products (shown (run (step mount (ClickFilter GUITARRA))
                       [FetchSettled 0 (Normal violao_list);
                        FetchSettled 1 (Normal guitarra_list)]))
    = guitarra_list
  /\ products (shown (run (step mount (ClickFilter GUITARRA))
                          [FetchSettled 1 (Normal guitarra_list);
                           FetchSettled 0 (Normal violao_list)]))
    = violao_list.
Proof.
  pose proof (last_fulfilled_fetch_is_displayed
                mount 0 GUITARRA violao_list guitarra_list
                well_numbered_mount (or_introl eq_refl)
                ltac:(discriminate)) as H.
  cbv zeta in H.
  exact (conj (proj1 (proj1 (proj2 (proj2 (proj2 H)))))
              (proj1 (proj2 (proj2 (proj2 (proj2 H)))))).
Defined.

(** C8, as stated, fails.  A review is generated for the first product and
    the modal is then closed: the modal is closed and shows nothing, and the
    review generated before is still stored in [aiReviewData]. *)
Lemma review_remains_after_close :
  let final := run mount review_then_close_events in
  aiModalOpen (shown final) = false
  /\ displayedReview (shown final) = None
  /\ aiReviewData (shown final) = Some sample_review
  /\ aiReviewData (shown final) <> None.
Proof.
  cbv zeta. repeat split. discriminate.
Qed.

(** C8, amended.  A review is produced on demand and per product: a click on
    a rendered "Gerar avaliacao IA" button clears the stored review, records
    the product and leaves a new request pending, and no event other than
    that click and the settling of a pending review request changes the
    stored review.  Closing the modal only sets [aiModalOpen] to [false]: the
    stored review is kept and no longer displayed. *)
Theorem review_on_demand_and_kept_on_close (pg : Page) :
  (aiModalOpen (shown pg) = true ->
   shown (step pg ClickClose) = setAiModalOpen false (shown pg)
   /\ aiReviewData (shown (step pg ClickClose)) = aiReviewData (shown pg)
   /\ displayedReview (shown (step pg ClickClose)) = None)
  /\ (forall (card : nat) (product : Product.t),
         loading (shown pg) = false ->
         nth_error (products (shown pg)) card = Some product ->
         let pg' := step pg (ClickGenerate card) in
         aiReviewData (shown pg') = None
         /\ aiReviewProduct (shown pg') = Some product
         /\ displayedReview (shown pg') = None
         /\ pendingReviews pg'
            = (pendingReviews pg ++ [reviewsRequested pg])%list)
  /\ (forall (request : nat) (response : AxiosResponse AiReviewResponse.t),
         In request (pendingReviews pg) ->
         aiReviewData (shown (step pg (ReviewSettled request
                                                     (Normal response))))
         = Some (AiReviewResponse.review (data response)))
  /\ (forall ev : PageEvent,
         match ev with
         | ClickGenerate _ | ReviewSettled _ _ => True
         | _ => aiReviewData (shown (step pg ev)) = aiReviewData (shown pg)
         end).
Proof.
  unfold shown. split; [| split; [| split]].
  - intros Hopen. simpl. rewrite Hopen. repeat split.
  - intros card product Hloaded Hcard. cbv zeta. simpl.
    rewrite Hloaded, Hcard. repeat split.
  - intros request response Hin. apply is_pending_In in Hin.
    simpl. rewrite Hin. reflexivity.
  - intros ev.
    destruct ev as [value | request c | card | request c |]; simpl;
      try exact I.
    + destruct (StringType_eqb value _); reflexivity.
    + destruct (is_pending request _); [| reflexivity].
      destruct c; reflexivity.
    + destruct (aiModalOpen _); reflexivity.
Qed.

Lemma review_on_demand_and_kept_on_close_witness :
  let opened := run mount [FetchSettled 0 (Normal violao_list);
                           ClickGenerate 0;
                           ReviewSettled 0 (Normal (sample_review_response
                              (sample_product "v1" VIOLAO 1 40)))] in
  aiReviewData (shown opened) = Some sample_review
  /\ aiReviewData (shown (step opened ClickClose)) = Some sample_review
  /\ aiReviewData (shown (step (step opened ClickClose) (ClickGenerate 1)))
     = None.
Proof.
  cbv zeta.
  set (opened := run mount [FetchSettled 0 (Normal violao_list);
                            ClickGenerate 0;
                            ReviewSettled 0 (Normal (sample_review_response
                               (sample_product "v1" VIOLAO 1 40)))]).
  split; [reflexivity |]. split.
  - exact (proj1 (proj2 (proj1 (review_on_demand_and_kept_on_close opened)
                           eq_refl))).
  - exact (proj1 (proj1 (proj2 (review_on_demand_and_kept_on_close
                                  (step opened ClickClose)))
                    1 (sample_product "v2" VIOLAO 2 55) eq_refl eq_refl)).
Defined.

(* ================================================================== *)
(** * Fetch with retry for every bound, delay and network *)
(* ================================================================== *)

Section RetryInGeneral.

Variables (net : Network) (ty : StringType) (retries : nat) (delayMs : Z).

Lemma attempts_made_bound (replies : list (Reply (list Product.t))) :
  attempts_made replies <= List.length replies.
Proof.
  induction replies as [| [response | e] replies IH]; simpl; lia.
Qed.

Lemma attempts_made_positive (replies : list (Reply (list Product.t))) :
  replies <> [] -> 1 <= attempts_made replies.
Proof. destruct replies as [| [response | e] replies]; simpl; [easy | lia ..]. Qed.

Lemma next_replies_length (n0 k : nat) :
  List.length (next_replies net ty n0 k) = k.
Proof.
  revert n0; induction k as [| k IH]; intros n0; simpl;
    [| rewrite IH]; reflexivity.
Qed.

Lemma exhausted_attempts_succ (n : nat) :
  exhausted_attempts net ty delayMs (S (S n))
  = get_effect net ty :: Wait delayMs
      :: exhausted_attempts net ty delayMs (S n).
Proof. reflexivity. Qed.

(** The loop entered at [attempt] with [m] iterations left settles as the
    next [m] replies say, after as many attempts as [attempts_made]
    counts. *)
Lemma retry_loop_settles :
  forall (m attempt : nat) (lastError : unknown) (r : Runtime),
    attempt + m = retries + 1 ->
    retry_loop net ty retries delayMs (retries + 1 - attempt) attempt
               lastError r
    = (settle_replies (next_replies net ty (requests r) m) lastError,
       {| effects := effects r
                     ++ exhausted_attempts net ty delayMs
                          (attempts_made
                             (next_replies net ty (requests r) m));
          requests := requests r
                      + attempts_made (next_replies net ty (requests r) m);
          view := view r |}).
Proof.
  induction m as [| m IH]; intros attempt lastError r Hsum.
  - replace (retries + 1 - attempt) with 0 by lia. simpl. unfold throw.
    rewrite app_nil_r, Nat.add_0_r. destruct r; reflexivity.
  - simpl next_replies.
    destruct (get_reply net (requests r) ty) as [response | e] eqn:Hreply.
    + rewrite (retry_iteration_fulfilled net ty retries delayMs attempt
                 lastError response r) by (lia || assumption).
      simpl. unfold issue. do 2 f_equal. lia.
    + rewrite (retry_iteration_rejected net ty retries delayMs attempt
                 lastError e r) by (lia || assumption).
      destruct m as [| m].
      * assert (Hlt : (attempt <? retries)%nat = false)
          by (apply Nat.ltb_ge; lia).
        rewrite Hlt, IH by lia. simpl. rewrite app_nil_r.
        do 2 f_equal. lia.
      * assert (Hlt : (attempt <? retries)%nat = true)
          by (apply Nat.ltb_lt; lia).
        rewrite Hlt, IH by lia.
        cbn [settle_replies attempts_made].
        pose proof (attempts_made_positive
                      (next_replies net ty (S (requests r)) (S m))
                      ltac:(discriminate)) as Hpos.
        cbn [perform issue requests effects view].
        destruct (attempts_made (next_replies net ty (S (requests r)) (S m)))
          as [| n]; [lia |].
        rewrite exhausted_attempts_succ, <- !app_assoc. simpl.
        do 2 f_equal. lia.
Qed.

Lemma count_gets_exhausted (n : nat) :
  count_gets (exhausted_attempts net ty delayMs n) = n.
Proof.
  destruct n as [| n]; [reflexivity |]. apply failed_attempts_count.
Qed.

Lemma count_http_exhausted (n : nat) :
  count_http (exhausted_attempts net ty delayMs n) = n.
Proof.
  destruct n as [| n]; [reflexivity |]. unfold exhausted_attempts.
  induction n as [| n IH]; [reflexivity |].
  unfold count_http in *. simpl. now rewrite IH.
Qed.

Lemma waits_exhausted (n : nat) :
  waits (exhausted_attempts net ty delayMs n) = repeat delayMs (n - 1).
Proof.
  destruct n as [| n]; [reflexivity |].
  replace (S n - 1) with n by lia. apply failed_attempts_waits.
Qed.

Lemma exhausted_only_gets_and_waits (n : nat) :
  Forall (fun e => e = get_effect net ty \/ e = Wait delayMs)
         (exhausted_attempts net ty delayMs n).
Proof.
  destruct n as [| n]; [constructor |]. unfold exhausted_attempts.
  induction n as [| n IH]; simpl.
  - repeat constructor.
  - constructor; [now left |]. constructor; [now right | exact IH].
Qed.

End RetryInGeneral.

Lemma effects_since_app (r r' : Runtime) (tr : list Effect) :
  effects r' = (effects r ++ tr)%list -> effects_since r r' = tr.
Proof.
  intros H. unfold effects_since. rewrite H, skipn_app, skipn_all.
  now rewrite Nat.sub_diag.
Qed.

(** X1.  For every bound [retries], delay and network, the function settles
    as the replies to its first [retries] requests dictate: with the payload
    of the first fulfilled reply, or, when none is fulfilled, by throwing the
    error of the last one.  It makes one attempt per reply up to the first
    fulfilled one, with the delay between attempts, and leaves the view state
    alone. *)
Theorem fetch_settles_with_first_fulfilled_reply
    (net : Network) (ty : StringType) (retries : nat) (delayMs : Z)
    (r : Runtime) :
  let replies := next_replies net ty (requests r) retries in
  fetchProductsWithRetry net ty retries delayMs r
  = (settle_replies replies undefined,
     {| effects := effects r
                   ++ exhausted_attempts net ty delayMs
                        (attempts_made replies);
        requests := requests r + attempts_made replies;
        view := view r |}).
Proof.
  intros replies. subst replies. unfold fetchProductsWithRetry.
  pose proof (retry_loop_settles net ty retries delayMs retries 1 undefined r
                ltac:(lia)) as H.
  replace (retries + 1 - 1) with retries in H by lia. exact H.
Qed.

(** X2.  Whatever the network answers, the function issues at most
    [retries] requests (at least one when [retries >= 1]), every one of them
    the same GET; it waits [delayMs] exactly once between two consecutive
    requests and does nothing else: no other request, no console output. *)
Theorem fetch_effects_are_bounded
    (net : Network) (ty : StringType) (retries : nat) (delayMs : Z)
    (r : Runtime) :
  let r' := snd (fetchProductsWithRetry net ty retries delayMs r) in
  let tr := effects_since r r' in
  firstn (List.length (effects r)) (effects r') = effects r
  /\ count_http tr <= retries
  /\ (1 <= retries -> 1 <= count_http tr)
  /\ count_gets tr = count_http tr
  /\ waits tr = repeat delayMs (count_http tr - 1)
  /\ Forall (fun e => e = get_effect net ty \/ e = Wait delayMs) tr
  /\ requests r' = requests r + count_http tr.
Proof.
  intros r' tr. subst tr r'. unfold fetchProductsWithRetry.
  pose proof (retry_loop_settles net ty retries delayMs retries 1 undefined r
                ltac:(lia)) as H.
  replace (retries + 1 - 1) with retries in H by lia. rewrite H. clear H.
  cbn [snd].
  set (n := attempts_made (next_replies net ty (requests r) retries)).
  rewrite (effects_since_app r _ (exhausted_attempts net ty delayMs n))
    by reflexivity.
  cbn [effects requests].
  rewrite count_http_exhausted, count_gets_exhausted, waits_exhausted.
  repeat split.
  - rewrite firstn_app, Nat.sub_diag, firstn_all. simpl.
    now rewrite app_nil_r.
  - subst n. etransitivity; [apply attempts_made_bound |].
    now rewrite next_replies_length.
  - intros Hpos. subst n. apply attempts_made_positive.
    destruct retries; [lia | discriminate].
  - apply exhausted_only_gets_and_waits.
Qed.

Lemma settle_replies_error (replies : list (Reply (list Product.t)))
    (e : AxiosError) :
  settle_replies replies (axios_error e) <> Throw undefined.
Proof.
  revert e; induction replies as [| [response | e'] replies IH]; intros e;
    simpl; [discriminate | discriminate | apply IH].
Qed.

(** X3.  With [retries = 0] the loop body never runs: no request is made and
    [undefined], the initial value of [lastError], is thrown.  With
    [retries >= 1] the function never throws [undefined]: what it throws is
    an error caught from axios. *)
Theorem fetch_throws_undefined_only_without_attempts
    (net : Network) (ty : StringType) (delayMs : Z) (r : Runtime) :
  fetchProductsWithRetry net ty 0 delayMs r = (Throw undefined, r)
  /\ (forall retries : nat,
         1 <= retries ->
         fst (fetchProductsWithRetry net ty retries delayMs r)
         <> Throw undefined).
Proof.
  split; [reflexivity |].
  intros retries Hpos. unfold fetchProductsWithRetry.
  pose proof (retry_loop_settles net ty retries delayMs retries 1 undefined r
                ltac:(lia)) as H.
  replace (retries + 1 - 1) with retries in H by lia. rewrite H. clear H.
  cbn [fst]. destruct retries as [| k]; [lia |]. simpl.
  destruct (get_reply net (requests r) ty) as [response | e];
    [discriminate | apply settle_replies_error].
Qed.

Lemma fetch_throws_undefined_only_without_attempts_witness :
  1 <= 3
  /\ fst (fetchProductsWithRetry (flaky_network 9) VIOLAO 3 500
            fresh_runtime)
     <> Throw undefined.
Proof.
  split; [lia |].
  exact (proj2 (fetch_throws_undefined_only_without_attempts
                  (flaky_network 9) VIOLAO 500 fresh_runtime)
               3 ltac:(lia)).
Defined.

(* ================================================================== *)
(** * The two handlers never fail *)
(* ================================================================== *)

Lemma count_http_app (a b : list Effect) :
  count_http (a ++ b) = count_http a + count_http b.
Proof. unfold count_http. now rewrite filter_app, length_app. Qed.

Lemma waits_app (a b : list Effect) : waits (a ++ b) = (waits a ++ waits b)%list.
Proof.
  induction a as [| e a IH]; [reflexivity |].
  destruct e; simpl; now rewrite IH.
Qed.

Lemma total_wait_repeat (ms : Z) (k : nat) :
  fold_right Z.add 0%Z (repeat ms k) = (ms * Z.of_nat k)%Z.
Proof.
  induction k as [| k IH]; [simpl; lia |].
  cbn [repeat fold_right]. rewrite IH. lia.
Qed.

Lemma filter_http_exhausted (net : Network) (ty : StringType) (delayMs : Z)
    (n : nat) :
  filter is_http (exhausted_attempts net ty delayMs n)
  = repeat (get_effect net ty) n.
Proof.
  destruct n as [| n]; [reflexivity |]. unfold exhausted_attempts.
  induction n as [| n IH]; [reflexivity |]. simpl. now rewrite IH.
Qed.

Lemma filter_console_exhausted (net : Network) (ty : StringType)
    (delayMs : Z) (n : nat) :
  filter is_console_error (exhausted_attempts net ty delayMs n) = [].
Proof.
  destruct n as [| n]; [reflexivity |]. unfold exhausted_attempts.
  induction n as [| n IH]; [reflexivity |]. simpl. exact IH.
Qed.

(** The whole run of the effect, in terms of the replies to its requests. *)
Lemma loadProductsEffect_run (net : Network) (r : Runtime) :
  let selected := selectedType (view r) in
  let replies := next_replies net selected (requests r) default_retries in
  let c := settle_replies replies undefined in
  let n := attempts_made replies in
  loadProductsEffect net r
  = (Normal tt,
     {| effects := (effects r
                    ++ exhausted_attempts net selected default_delayMs n)
                   ++ match c with
                      | Normal _ => []
                      | Throw v => [ConsoleError fetch_error_message v]
                      end;
        requests := requests r + n;
        view := match c with
                | Normal payload =>
                    setLoading false
                      (setHasError false
                         (setProducts payload (setLoading true (view r))))
                | Throw _ =>
                    setLoading false
                      (setHasError true (setLoading true (view r)))
                end |}).
Proof.
  intros selected replies c n. subst c n replies selected.
  rewrite loadProductsEffect_callbacks.
  unfold bind at 1. cbn [update]. unfold bind at 1. cbn [read view].
  unfold bind, attempt. unfold fetchProductsWithRetry.
  pose proof (retry_loop_settles net (selectedType (view r)) default_retries
                default_delayMs default_retries 1 undefined
                {| effects := effects r; requests := requests r;
                   view := setLoading true (view r) |}
                ltac:(unfold default_retries; lia)) as H.
  change (default_retries + 1 - 1) with default_retries in H.
  cbn [setLoading selectedType] in *. rewrite H. clear H.
  cbn [requests effects view].
  destruct (settle_replies _ undefined) as [payload | v].
  - rewrite productsSettled_fulfilled. cbn [effects requests view].
    now rewrite app_nil_r.
  - rewrite productsSettled_rejected. reflexivity.
Qed.

Lemma fetchProductsWithRetry_completion (net : Network) (ty : StringType)
    (retries : nat) (delayMs : Z) (r : Runtime) :
  fst (fetchProductsWithRetry net ty retries delayMs r)
  = settle_replies (next_replies net ty (requests r) retries) undefined.
Proof.
  unfold fetchProductsWithRetry.
  pose proof (retry_loop_settles net ty retries delayMs retries 1 undefined r
                ltac:(lia)) as H.
  replace (retries + 1 - 1) with retries in H by lia. now rewrite H.
Qed.

(** X4.  The product-loading effect never throws, whatever the network does:
    it always ends with [loading = false], with [hasError] telling whether
    the fetch failed, and with the selected filter and all cells of the AI
    review as they were. *)
Theorem loadProductsEffect_always_completes (net : Network) (r : Runtime) :
  let fetched := fetchProductsWithRetry net (selectedType (view r))
                   default_retries default_delayMs
                   (exec (update (setLoading true)) r) in
  let s' := view (exec (loadProductsEffect net) r) in
  fst (loadProductsEffect net r) = Normal tt
  /\ loading s' = false
  /\ hasError s' = is_throw (fst fetched)
  /\ (is_throw (fst fetched) = true -> products s' = products (view r))
  /\ selectedType s' = selectedType (view r)
  /\ aiModalOpen s' = aiModalOpen (view r)
  /\ aiReviewLoading s' = aiReviewLoading (view r)
  /\ aiReviewError s' = aiReviewError (view r)
  /\ aiReviewData s' = aiReviewData (view r)
  /\ aiReviewProduct s' = aiReviewProduct (view r).
Proof.
  intros fetched s'. subst s' fetched. unfold exec.
  rewrite loadProductsEffect_run, fetchProductsWithRetry_completion.
  cbn [fst snd view update requests setLoading selectedType].
  destruct (settle_replies _ undefined); repeat split; discriminate.
Qed.

(** X5.  One run of the product-loading effect issues between one and five
    HTTP requests, all of them the GET of [/strings] for the selected filter
    with the 25000 ms timeout, spends 2000 ms in timers per request after
    the first (8000 ms at most), and writes to the console once when the
    fetch fails and not at all when it succeeds. *)
Theorem loadProductsEffect_traffic_is_bounded (net : Network) (r : Runtime) :
  let selected := selectedType (view r) in
  let fetched := fetchProductsWithRetry net selected
                   default_retries default_delayMs
                   (exec (update (setLoading true)) r) in
  let tr := effects_since r (exec (loadProductsEffect net) r) in
  1 <= count_http tr <= 5
  /\ filter is_http tr
     = repeat (HttpGet (API_BASE_URL net ++ "/strings") 25000 selected)
              (count_http tr)
  /\ total_wait tr = (2000 * Z.of_nat (count_http tr - 1))%Z
  /\ (0 <= total_wait tr <= 8000)%Z
  /\ List.length (filter is_console_error tr)
     = (if is_throw (fst fetched) then 1 else 0).
Proof.
  intros selected fetched tr. subst tr fetched. unfold exec.
  rewrite loadProductsEffect_run, fetchProductsWithRetry_completion.
  cbn [fst snd view update requests setLoading selectedType]. fold selected.
  set (replies := next_replies net selected (requests r) default_retries).
  set (n := attempts_made replies).
  assert (Hn : 1 <= n <= 5).
  { subst n replies. split.
    - apply attempts_made_positive. discriminate.
    - etransitivity; [apply attempts_made_bound |].
      now rewrite next_replies_length. }
  erewrite effects_since_app
    by (cbn [effects]; rewrite <- app_assoc; reflexivity).
  assert (Hhttp : count_http
                    (exhausted_attempts net selected default_delayMs n
                     ++ match settle_replies replies undefined with
                        | Normal _ => []
                        | Throw v => [ConsoleError fetch_error_message v]
                        end) = n).
  { rewrite count_http_app, count_http_exhausted.
    destruct (settle_replies replies undefined); unfold count_http; simpl;
      lia. }
  rewrite Hhttp. unfold total_wait.
  rewrite waits_app, waits_exhausted, !filter_app, filter_http_exhausted,
    filter_console_exhausted.
  assert (Hwait : fold_right Z.add 0%Z
                    (repeat default_delayMs (n - 1)
                     ++ waits match settle_replies replies undefined with
                              | Normal _ => []
                              | Throw v =>
                                  [ConsoleError fetch_error_message v]
                              end)
                  = (2000 * Z.of_nat (n - 1))%Z).
  { destruct (settle_replies replies undefined); simpl;
      rewrite app_nil_r; apply total_wait_repeat. }
  rewrite Hwait.
  repeat split; try lia.
  - destruct (settle_replies replies undefined); simpl;
      now rewrite app_nil_r.
  - destruct (settle_replies replies undefined); reflexivity.
Qed.

(** X6.  [handleGenerateAiReview] never throws, whatever the POST does.
    Neither of its halves, the part before the [await] and the continuation
    run when the POST settles, throws or changes the product list, the
    loading and error flags of the list or the selected filter, from
    whatever state it runs; so this holds too when other events come in
    between.  The continuation always leaves the error message or a review
    stored (both when an earlier request left the other one behind). *)
Theorem handleGenerateAiReview_never_throws
    (net : Network) (product : Product.t) (r : Runtime) :
  let s' := view (exec (handleGenerateAiReview net product) r) in
  (fst (handleGenerateAiReview net product r) = Normal tt
   /\ products s' = products (view r)
   /\ loading s' = loading (view r)
   /\ hasError s' = hasError (view r)
   /\ selectedType s' = selectedType (view r))
  /\ (forall r0 : Runtime,
         let s0 := view (exec (reviewRequested product) r0) in
         fst (reviewRequested product r0) = Normal tt
         /\ products s0 = products (view r0)
         /\ loading s0 = loading (view r0)
         /\ hasError s0 = hasError (view r0)
         /\ selectedType s0 = selectedType (view r0))
  /\ (forall (c : Completion (AxiosResponse AiReviewResponse.t))
             (r0 : Runtime),
         let s0 := view (exec (reviewSettled c) r0) in
         fst (reviewSettled c r0) = Normal tt
         /\ products s0 = products (view r0)
         /\ loading s0 = loading (view r0)
         /\ hasError s0 = hasError (view r0)
         /\ selectedType s0 = selectedType (view r0)
         /\ aiModalOpen s0 = aiModalOpen (view r0)
         /\ aiReviewProduct s0 = aiReviewProduct (view r0)
         /\ aiReviewLoading s0 = false
         /\ match c with
            | Normal response =>
                aiReviewData s0
                = Some (AiReviewResponse.review (data response))
                /\ aiReviewError s0 = aiReviewError (view r0)
            | Throw _ =>
                aiReviewError s0 = Some ai_review_error_message
                /\ aiReviewData s0 = aiReviewData (view r0)
            end
         /\ (aiReviewError s0 <> None \/ aiReviewData s0 <> None)).
Proof.
  cbv zeta. split; [| split].
  - unfold exec. rewrite handleGenerateAiReview_continuation.
    unfold reviewRequested, reviewSettled, bind, try_finally, try_catch,
      attempt, resume, update, axios_post, console_error.
    cbn [fst snd view requests].
    destruct (post_reply net (requests r) (ai_review_body product));
      cbn; repeat split.
  - intros r0. repeat split.
  - intros c r0.
    unfold exec, reviewSettled, bind, try_finally, try_catch, resume,
      update, console_error.
    destruct c as [response | v]; cbn; repeat split;
      (now left) || (now right).
Qed.

(* ================================================================== *)
(** * The page machine: what holds on every page it reaches *)
(* ================================================================== *)

Lemma run_invariant (P : Page -> Prop) :
  (forall pg ev, P pg -> P (step pg ev)) ->
  forall evs pg, P pg -> P (run pg evs).
Proof.
  intros Hstep evs. induction evs as [| ev evs IH]; intros pg H;
    [exact H |].
  apply IH, Hstep, H.
Qed.

Lemma snoc_not_nil {A} (l : list A) (x : A) : (l ++ [x])%list <> [].
Proof. destruct l; discriminate. Qed.

(** The callbacks of the fetch write [products], [hasError] and [loading]
    only. *)
Lemma productsSettled_view (c : Completion (list Product.t)) (r : Runtime) :
  view (exec (productsSettled c) r)
  = match c with
    | Normal payload =>
        setLoading false (setHasError false (setProducts payload (view r)))
    | Throw _ => setLoading false (setHasError true (view r))
    end.
Proof. destruct c; reflexivity. Qed.

Lemma reviewSettled_view
    (c : Completion (AxiosResponse AiReviewResponse.t)) (r : Runtime) :
  view (exec (reviewSettled c) r)
  = match c with
    | Normal response =>
        setAiReviewLoading false
          (setAiReviewData (Some (AiReviewResponse.review (data response)))
                           (view r))
    | Throw _ =>
        setAiReviewLoading false
          (setAiReviewError (Some ai_review_error_message) (view r))
    end.
Proof. destruct c; reflexivity. Qed.

(** X7.  On every page the machine reaches from the first render, a spinner
    means work in flight: when [loading] is [true] some fetch is pending, and
    when [aiReviewLoading] is [true] some review request is pending.  So once
    every pending promise has settled no spinner is left. *)
Theorem spinners_imply_pending_requests (evs : list PageEvent) :
  let pg := run mount evs in
  (loading (shown pg) = true -> pendingFetches pg <> [])
  /\ (aiReviewLoading (shown pg) = true -> pendingReviews pg <> []).
Proof.
  cbv zeta. apply run_invariant; [| split; simpl; discriminate].
  clear evs. intros pg ev [Hfetch Hreview]. unfold shown in *.
  destruct ev as [value | request c | card | request c |]; simpl.
  - destruct (StringType_eqb value _); [now split |].
    split; simpl; [intros _; apply snoc_not_nil | exact Hreview].
  - destruct (is_pending request _); [| now split].
    cbn [runtime pendingFetches pendingReviews].
    rewrite productsSettled_view.
    destruct c; simpl; split; (discriminate || exact Hreview).
  - destruct (loading (view (runtime pg))) eqn:Hl;
      [split; [intros _; now apply Hfetch | exact Hreview] |].
    destruct (nth_error _ card);
      [| split; [rewrite Hl; discriminate | exact Hreview]].
    split; simpl; [rewrite Hl; discriminate | intros _; apply snoc_not_nil].
  - destruct (is_pending request _); [| now split].
    cbn [runtime pendingFetches pendingReviews].
    rewrite reviewSettled_view.
    destruct c; simpl; split; (discriminate || exact Hfetch).
  - destruct (aiModalOpen _); now split.
Qed.

(** X8.  The converse fails by design of the effect: when two fetches are
    pending and one of them settles, in any way, [loading] becomes [false]
    and the skeleton goes away although the other fetch is still pending. *)
Theorem loading_cleared_while_fetch_pending
    (pg : Page) (settled other : nat) (c : Completion (list Product.t)) :
  In settled (pendingFetches pg) ->
  In other (pendingFetches pg) ->
  other <> settled ->
  let pg' := step pg (FetchSettled settled c) in
  loading (shown pg') = false
  /\ In other (pendingFetches pg')
  /\ rankingSection (shown pg') <> Skeleton 8.
Proof.
  intros Hsettled Hother Hneq. cbv zeta. unfold shown. simpl.
  apply is_pending_In in Hsettled. rewrite Hsettled.
  cbn [runtime pendingFetches]. rewrite productsSettled_view.
  split; [destruct c; reflexivity |].
  split; [apply In_settle; now split |].
  unfold rankingSection.
  destruct c; simpl; destruct (_ =? 0)%nat; discriminate.
Qed.

Lemma loading_cleared_while_fetch_pending_witness :
  let pg' := step (step mount (ClickFilter VIOLINO))
                  (FetchSettled 0 (Throw (axios_error NetworkError))) in
  loading (shown pg') = false /\ In 1 (pendingFetches pg').
Proof.
  pose proof (loading_cleared_while_fetch_pending
                (step mount (ClickFilter VIOLINO)) 0 1
                (Throw (axios_error NetworkError))
                ltac:(simpl; auto) ltac:(simpl; auto) ltac:(lia)) as H.
  cbv zeta in H. exact (conj (proj1 H) (proj1 (proj2 H))).
Defined.

(** X9.  On every page the machine reaches, the fetch initiated last was
    initiated for the filter that is selected now. *)
Theorem latest_request_is_for_selected_filter (evs : list PageEvent) :
  let pg := run mount evs in
  latestRequest pg
  = Some (List.length (initiated pg) - 1, selectedType (shown pg)).
Proof.
  cbv zeta.
  enough (H : exists older,
             initiated (run mount evs)
             = (older ++ [selectedType (shown (run mount evs))])%list).
  { destruct H as [older H]. unfold latestRequest.
    rewrite H at 1. now rewrite rev_unit. }
  apply (run_invariant
           (fun pg => exists older,
                initiated pg = (older ++ [selectedType (shown pg)])%list));
    [| now exists []].
  clear evs. intros pg ev [older H]. unfold shown in *.
  destruct ev as [value | request c | card | request c |]; simpl.
  - destruct (StringType_eqb value _); [now exists older |].
    now exists (initiated pg).
  - destruct (is_pending request _); [| now exists older].
    cbn [runtime initiated]. rewrite productsSettled_view.
    exists older. now destruct c.
  - destruct (loading _); [now exists older |].
    destruct (nth_error _ card); now exists older.
  - destruct (is_pending request _); [| now exists older].
    cbn [runtime initiated]. rewrite reviewSettled_view.
    exists older. now destruct c.
  - destruct (aiModalOpen _); now exists older.
Qed.

(** X10.  On every page the machine reaches, an open modal has a product:
    its title is the title of [aiReviewProduct], the fallback title is never
    shown, and its body is never empty: it shows the progress notice, the
    error or a review. *)
Theorem open_modal_has_product_and_body (evs : list PageEvent) :
  let s := shown (run mount evs) in
  aiModalOpen s = true ->
  (exists product, aiReviewProduct s = Some product
                   /\ modalTitle s = Product.title product)
  /\ modalBody s <> EmptyBody
  /\ modal s = Some (modalTitle s, modalBody s).
Proof.
  cbv zeta.
  set (Inv := fun pg : Page =>
    let s := shown pg in
    (aiModalOpen s = true -> aiReviewProduct s <> None)
    /\ (aiReviewProduct s <> None -> aiReviewLoading s = false ->
        aiReviewError s = Some ai_review_error_message
        \/ aiReviewData s <> None)).
  assert (HInv : Inv (run mount evs)).
  { apply run_invariant; [| split; simpl; [discriminate | congruence]].
    clear evs. intros pg ev [Hopen Hbody]. unfold Inv, shown in *.
    destruct ev as [value | request c | card | request c |]; simpl.
    - destruct (StringType_eqb value _); now split.
    - destruct (is_pending request _); [| now split].
      cbn [runtime]. rewrite productsSettled_view.
      destruct c; now split.
    - destruct (loading _); [now split |].
      destruct (nth_error _ card); [| now split].
      split; simpl; [discriminate | discriminate].
    - destruct (is_pending request _); [| now split].
      cbn [runtime]. rewrite reviewSettled_view.
      destruct c; simpl; split; try exact Hopen; intros _ _;
        [right; discriminate | now left].
    - destruct (aiModalOpen (view (runtime pg))) eqn:Ho.
      + split; simpl; [discriminate | exact Hbody].
      + split; [rewrite Ho; discriminate | exact Hbody]. }
  destruct HInv as [Hopen Hbody]. intros Ho.
  specialize (Hopen Ho).
  destruct (aiReviewProduct (shown (run mount evs))) as [product |] eqn:Hp;
    [| congruence].
  split; [exists product; split; [reflexivity |
                                  unfold modalTitle; now rewrite Hp] |].
  split; [| unfold modal; now rewrite Ho].
  unfold modalBody.
  destruct (aiReviewLoading (shown (run mount evs))) eqn:Hl;
    [discriminate |].
  destruct (Hbody ltac:(congruence) eq_refl) as [He | Hd].
  - rewrite He. discriminate.
  - destruct (aiReviewData (shown (run mount evs))); [| congruence].
    destruct (aiReviewError (shown (run mount evs))) as [m |];
      [destruct (Js.truthy m) |]; discriminate.
Qed.

Lemma open_modal_has_product_and_body_witness :
  aiModalOpen (shown (run mount [FetchSettled 0 (Normal violao_list);
                                 ClickGenerate 1])) = true
  /\ modalBody (shown (run mount [FetchSettled 0 (Normal violao_list);
                                  ClickGenerate 1]))
     <> EmptyBody.
Proof.
  split; [reflexivity |].
  exact (proj1 (proj2 (open_modal_has_product_and_body
                         [FetchSettled 0 (Normal violao_list);
                          ClickGenerate 1] eq_refl))).
Defined.

Lemma step_products (pg : Page) (ev : PageEvent) :
  products (shown (step pg ev)) = products (shown pg)
  \/ exists request payload,
       ev = FetchSettled request (Normal payload)
       /\ products (shown (step pg ev)) = payload.
Proof.
  unfold shown.
  destruct ev as [value | request c | card | request c |]; simpl.
  - destruct (StringType_eqb value _); now left.
  - destruct (is_pending request _); [| now left].
    cbn [runtime]. rewrite productsSettled_view.
    destruct c as [payload | v]; [right; now exists request, payload |].
    now left.
  - destruct (loading _); [now left |].
    destruct (nth_error _ card); now left.
  - destruct (is_pending request _); [| now left].
    cbn [runtime]. rewrite reviewSettled_view. destruct c; now left.
  - destruct (aiModalOpen _); now left.
Qed.

(** X11.  The list on display is never made up or merged: after any events
    it is the list the page started with (the empty list, from the first
    render) or, whole, the payload of one of the fulfilled fetches among
    those events. *)
Theorem displayed_products_come_from_a_fulfilled_fetch
    (evs : list PageEvent) :
  products (shown (run mount evs)) = []
  \/ exists request payload,
       In (FetchSettled request (Normal payload)) evs
       /\ products (shown (run mount evs)) = payload.
Proof.
  enough (H : forall pg,
             products (shown (run pg evs)) = products (shown pg)
             \/ exists request payload,
                  In (FetchSettled request (Normal payload)) evs
                  /\ products (shown (run pg evs)) = payload)
    by exact (H mount).
  induction evs as [| ev evs IH]; intros pg; [now left |].
  change (run pg (ev :: evs)) with (run (step pg ev) evs).
  destruct (IH (step pg ev)) as [Hsame | (request & payload & Hin & Heq)].
  - rewrite Hsame.
    destruct (step_products pg ev) as [Hkeep | (request & payload & -> & Heq)];
      [now left |].
    right. exists request, payload. split; [now left | exact Heq].
  - right. exists request, payload. split; [now right | exact Heq].
Qed.

(** X12.  Two review requests can be pending (the modal can be closed while
    it is loading).  When a review is asked for a product while an older
    request is pending and the older request is fulfilled last, the review of
    the older request is stored and displayed under the title of the newer
    product; when the older request fails and the newer one is fulfilled, the
    error message stays and hides the review that arrived. *)
Theorem late_review_overwrites_newer_product
    (pg : Page) (old card : nat) (product : Product.t)
    (response_old response_new : AxiosResponse AiReviewResponse.t)
    (v : unknown) :
  well_numbered pg ->
  In old (pendingReviews pg) ->
  loading (shown pg) = false ->
  nth_error (products (shown pg)) card = Some product ->
  let new := reviewsRequested pg in
  let pg1 := step pg (ClickGenerate card) in
  let stale := run pg1 [ReviewSettled new (Normal response_new);
                        ReviewSettled old (Normal response_old)] in
  let masked := run pg1 [ReviewSettled old (Throw v);
                         ReviewSettled new (Normal response_new)] in
  (aiReviewProduct (shown stale) = Some product
   /\ displayedReview (shown stale)
      = Some (AiReviewResponse.review (data response_old)))
  /\ (aiReviewProduct (shown masked) = Some product
      /\ aiReviewData (shown masked)
         = Some (AiReviewResponse.review (data response_new))
      /\ displayedReview (shown masked) = None
      /\ modalBody (shown masked) = ErrorNotice ai_review_error_message).
Proof.
  intros [_ Hnum] Hold Hloaded Hcard new pg1 stale masked.
  assert (Hneq : old <> new).
  { rewrite Forall_forall in Hnum. apply Hnum in Hold. subst new. lia. }
  unfold shown in *.
  assert (Hpg1 : pg1 = {| runtime := exec (reviewRequested product)
                                          (runtime pg);
                          initiated := initiated pg;
                          pendingFetches := pendingFetches pg;
                          reviewsRequested := S (reviewsRequested pg);
                          pendingReviews :=
                            (pendingReviews pg ++ [new])%list |}).
  { subst pg1. simpl. now rewrite Hloaded, Hcard. }
  assert (Hold1 : is_pending old (pendingReviews pg1) = true).
  { apply is_pending_In. rewrite Hpg1. simpl. apply in_or_app. now left. }
  assert (Hnew1 : is_pending new (pendingReviews pg1) = true).
  { apply is_pending_In. rewrite Hpg1. simpl. apply in_or_app.
    right. now left. }
  assert (Hold2 : is_pending old (settle new (pendingReviews pg1)) = true).
  { apply is_pending_In, In_settle. split; [| exact Hneq].
    now apply is_pending_In. }
  assert (Hnew2 : is_pending new (settle old (pendingReviews pg1)) = true).
  { apply is_pending_In, In_settle. split; [| congruence].
    now apply is_pending_In. }
  split.
  - subst stale. unfold run. cbn [fold_left].
    cbn [step]. rewrite Hnew1. cbn [pendingReviews runtime]. rewrite Hold2.
    cbn [runtime]. rewrite !reviewSettled_view, Hpg1. split; reflexivity.
  - subst masked. unfold run. cbn [fold_left].
    cbn [step]. rewrite Hold1. cbn [pendingReviews runtime]. rewrite Hnew2.
    cbn [runtime]. rewrite !reviewSettled_view, Hpg1.
    repeat split; reflexivity.
Qed.

Lemma late_review_overwrites_newer_product_witness :
  let pg := run mount [FetchSettled 0 (Normal violao_list);
                       ClickGenerate 0; ClickClose] in
  let stale :=
    run (step pg (ClickGenerate 1))
        [ReviewSettled 1 (Normal (sample_review_response
                                    (sample_product "v2" VIOLAO 2 55)));
         ReviewSettled 0 (Normal (sample_review_response
                                    (sample_product "v1" VIOLAO 1 40)))] in
  aiReviewProduct (shown stale) = Some (sample_product "v2" VIOLAO 2 55)
  /\ displayedReview (shown stale) = Some sample_review.
Proof.
  intros pg stale.
  assert (Hold : In 0 (pendingReviews pg)) by (vm_compute; auto).
  assert (Hl : loading (shown pg) = false) by (vm_compute; reflexivity).
  assert (Hc : nth_error (products (shown pg)) 1
               = Some (sample_product "v2" VIOLAO 2 55))
    by (vm_compute; reflexivity).
  pose proof (late_review_overwrites_newer_product
                pg 0 1 (sample_product "v2" VIOLAO 2 55)
                (sample_review_response (sample_product "v1" VIOLAO 1 40))
                (sample_review_response (sample_product "v2" VIOLAO 2 55))
                undefined
                (well_numbered_run _ _ well_numbered_mount)
                Hold Hl Hc) as H.
  cbv zeta in H. destruct H as [H _].
  exact H.
Defined.

(* ================================================================== *)
(** * The page machine agrees with the handlers run in one go *)
(* ================================================================== *)

(** X13.  When nothing else happens in between, the click on a card's review
    button followed by the settling of its POST leaves the view state that
    [handleGenerateAiReview] computes when run in one go against the same
    network. *)
Theorem review_click_then_settle_is_the_handler
    (net : Network) (pg : Page) (card : nat) (product : Product.t) :
  loading (shown pg) = false ->
  nth_error (products (shown pg)) card = Some product ->
  let c := of_reply (post_reply net (requests (runtime pg))
                                (ai_review_body product)) in
  shown (run pg [ClickGenerate card;
                 ReviewSettled (reviewsRequested pg) c])
  = view (exec (handleGenerateAiReview net product) (runtime pg)).
Proof.
  intros Hloaded Hcard c. subst c. unfold shown in *. unfold run.
  cbn [fold_left]. cbn [step]. rewrite Hloaded, Hcard.
  cbn [pendingReviews runtime].
  assert (Hpending : is_pending (reviewsRequested pg)
                       (pendingReviews pg ++ [reviewsRequested pg]) = true).
  { apply is_pending_In, in_or_app. right. now left. }
  rewrite Hpending. cbn [runtime]. rewrite reviewSettled_view.
  unfold exec at 3. rewrite handleGenerateAiReview_continuation.
  unfold reviewRequested, bind, attempt, axios_post, update. simpl.
  destruct (post_reply net (requests (runtime pg)) (ai_review_body product));
    reflexivity.
Qed.

Lemma review_click_then_settle_is_the_handler_witness :
  let pg := step mount (FetchSettled 0 (Normal violao_list)) in
  shown (run pg [ClickGenerate 0;
                 ReviewSettled (reviewsRequested pg)
                   (of_reply (post_reply (flaky_network 0)
                                (requests (runtime pg))
                                (ai_review_body
                                   (sample_product "v1" VIOLAO 1 40))))])
  = view (exec (handleGenerateAiReview (flaky_network 0)
                  (sample_product "v1" VIOLAO 1 40)) (runtime pg)).
Proof.
  intros pg.
  exact (review_click_then_settle_is_the_handler
           (flaky_network 0) pg 0 (sample_product "v1" VIOLAO 1 40)
           eq_refl eq_refl).
Defined.

(** X14.  Likewise for the list: the choice of another filter followed by
    the settling of the fetch it starts, with the completion
    [fetchProductsWithRetry] computes against the network, leaves the view
    state of the effect run in one go after [setSelectedType]. *)
Theorem filter_click_then_settle_is_the_effect
    (net : Network) (pg : Page) (value : StringType) :
  value <> selectedType (shown pg) ->
  let r0 := exec (update (setSelectedType value)) (runtime pg) in
  let c := fst (fetchProductsWithRetry net value
                  default_retries default_delayMs
                  (exec (update (setLoading true)) r0)) in
  shown (run pg [ClickFilter value;
                 FetchSettled (List.length (initiated pg)) c])
  = view (exec (loadProductsEffect net) r0).
Proof.
  intros Hneq r0 c. subst c r0. unfold shown in *. unfold run.
  cbn [fold_left]. cbn [step].
  rewrite (StringType_eqb_neq _ _ Hneq).
  assert (Hpending : is_pending (List.length (initiated pg))
                       (pendingFetches pg ++ [List.length (initiated pg)])
                     = true).
  { apply is_pending_In, in_or_app. right. now left. }
  cbn [startFetch with_runtime pendingFetches initiated runtime].
  rewrite Hpending. cbn [runtime]. rewrite productsSettled_view.
  unfold exec. rewrite loadProductsEffect_run.
  rewrite fetchProductsWithRetry_completion.
  cbn [update snd view requests selectedType setSelectedType].
  destruct (settle_replies _ undefined); reflexivity.
Qed.

Lemma filter_click_then_settle_is_the_effect_witness :
  shown (run mount
           [ClickFilter GUITARRA;
            FetchSettled (List.length (initiated mount))
              (fst (fetchProductsWithRetry (flaky_network 1) GUITARRA
                      default_retries default_delayMs
                      (exec (update (setLoading true))
                         (exec (update (setSelectedType GUITARRA))
                               (runtime mount)))))])
  = view (exec (loadProductsEffect (flaky_network 1))
               (exec (update (setSelectedType GUITARRA)) (runtime mount))).
Proof.
  exact (filter_click_then_settle_is_the_effect
           (flaky_network 1) mount GUITARRA ltac:(discriminate)).
Defined.

(* ================================================================== *)
(** * Derived view state: further results *)
(* ================================================================== *)

Lemma topProduct_In (products : list Product.t) (p : Product.t) :
  topProduct products = Some p -> In p products.
Proof.
  rewrite topProduct_find.
  destruct (find rank_is_1 products) as [x |] eqn:Hfind.
  - intros [= <-]. now apply find_some in Hfind.
  - destruct products as [| p0 rest]; [discriminate |].
    intros [= <-]. now left.
Qed.

(** X15.  The top product is always a product of the list, either one of
    rank 1 or, when the list has none, its first element; there is no top
    product exactly when the list is empty. *)
Theorem topProduct_is_a_listed_product (products : list Product.t) :
  (topProduct products = None <-> products = [])
  /\ (forall p, topProduct products = Some p ->
        In p products
        /\ (rank_is_1 p = true
            \/ (hd_error products = Some p
                /\ forall q, In q products -> rank_is_1 q = false))).
Proof.
  split.
  - rewrite topProduct_find. split.
    + destruct (find rank_is_1 products); [discriminate |].
      destruct products; [reflexivity | discriminate].
    + now intros ->.
  - intros p Htop. split; [now apply topProduct_In |].
    rewrite topProduct_find in Htop.
    destruct (find rank_is_1 products) as [x |] eqn:Hfind.
    + injection Htop as <-. left. now apply find_some in Hfind.
    + right. split; [exact Htop |].
      intros q Hq. exact (find_none _ _ Hfind q Hq).
Qed.

Lemma topProduct_is_a_listed_product_witness :
  In (sample_product "a" VIOLINO 1 50) ranks_3_1_2.
Proof.
  exact (proj1 (proj2 (topProduct_is_a_listed_product ranks_3_1_2)
                  (sample_product "a" VIOLINO 1 50) eq_refl)).
Defined.

(** X16.  For a non-empty list whose prices are numbers, [lowestPrice] is
    at most [highestPrice], and the price of the top product lies between
    the two. *)
Theorem price_range_is_ordered_and_holds_top_product
    (products : list Product.t) :
  products <> [] ->
  prices_are_numbers products ->
  Js.le (lowestPrice products) (highestPrice products)
  /\ (forall p, topProduct products = Some p ->
        Js.le (lowestPrice products) (Product.price p)
        /\ Js.le (Product.price p) (highestPrice products)).
Proof.
  intros Hne Hnum.
  assert (Hargs : forall x, In x (map Product.price products)
                            -> Js.isNaN x = false).
  { intros x Hx. apply in_map_iff in Hx as (p & <- & Hp). now apply Hnum. }
  assert (Hmap : map Product.price products <> []).
  { destruct products; [congruence | discriminate]. }
  destruct (Math_min_is_minimum _ Hmap Hargs) as (_ & Hlow).
  destruct (Math_max_is_maximum _ Hmap Hargs) as (_ & Hhigh).
  assert (Hbounds : forall p, In p products ->
            Js.le (lowestPrice products) (Product.price p)
            /\ Js.le (Product.price p) (highestPrice products)).
  { intros p Hp. unfold lowestPrice, highestPrice.
    destruct products as [| p0 rest]; [congruence |].
    change (negb (List.length (p0 :: rest) =? 0)%nat) with true. cbv iota.
    split; [apply Hlow | apply Hhigh]; now apply in_map. }
  split.
  - destruct products as [| p0 rest]; [congruence |].
    destruct (Hbounds p0 (or_introl eq_refl)) as [H1 H2].
    eapply number_le_trans; eassumption.
  - intros p Htop. apply Hbounds. now apply topProduct_In.
Qed.

Lemma price_range_is_ordered_and_holds_top_product_witness :
  Js.le (lowestPrice ranks_3_1_2) (highestPrice ranks_3_1_2).
Proof.
  refine (proj1 (price_range_is_ordered_and_holds_top_product
                   ranks_3_1_2 _ _)).
  - discriminate.
  - intros p [<- | [<- | [<- | []]]]; reflexivity.
Defined.

(** X17.  One price that is [NaN] spoils both bounds: [lowestPrice] and
    [highestPrice] are then [NaN], whatever the other prices are. *)
Theorem price_bounds_are_NaN_with_a_NaN_price
    (products : list Product.t) (p : Product.t) :
  In p products ->
  Js.isNaN (Product.price p) = true ->
  lowestPrice products = Js.NaN /\ highestPrice products = Js.NaN.
Proof.
  intros Hin Hnan.
  assert (Hex : existsb Js.isNaN (map Product.price products) = true).
  { apply existsb_exists. exists (Product.price p).
    split; [now apply in_map | exact Hnan]. }
  unfold lowestPrice, highestPrice, Js.Math_min, Js.Math_max.
  rewrite Hex. destruct products; [contradiction | split; reflexivity].
Qed.

Lemma price_bounds_are_NaN_with_a_NaN_price_witness :
  lowestPrice (ranks_3_1_2 ++ [unpriced_product]) = Js.NaN
  /\ highestPrice (ranks_3_1_2 ++ [unpriced_product]) = Js.NaN.
Proof.
  apply (price_bounds_are_NaN_with_a_NaN_price
           (ranks_3_1_2 ++ [unpriced_product]) unpriced_product).
  - apply in_or_app. right. now left.
  - reflexivity.
Defined.

Lemma truthy_iff_not_empty (s : string) : Js.truthy s = true <-> s <> "".
Proof.
  unfold Js.truthy. destruct (String.eqb_spec s ""); simpl; split;
    congruence.
Qed.

(** X18.  The "buy the best offer" anchor is decided by the top product.
    When there is a top product and its permalink is not empty, the anchor
    points at that permalink, a product of the list, and opens it in a new
    tab with [rel="noopener noreferrer"].  When there is no top product (the
    empty list) or its permalink is empty, the anchor points at [#ranking],
    with neither [target] nor [rel].  So no other anchor is ever rendered:
    the [href] is never empty and [target="_blank"] never comes without
    [rel="noopener noreferrer"]. *)
Theorem topProductLink_is_well_formed (products : list Product.t) :
  let a := topProductLink products in
  let to_ranking :=
    {| href := Some "#ranking"; target := None; rel := None |} in
  (forall p, topProduct products = Some p ->
             Product.permalink p <> "" ->
             In p products
             /\ a = {| href := Some (Product.permalink p);
                       target := Some "_blank";
                       rel := Some "noopener noreferrer" |})
  /\ (forall p, topProduct products = Some p ->
                Product.permalink p = "" -> a = to_ranking)
  /\ (topProduct products = None -> a = to_ranking)
  /\ (products = [] -> a = to_ranking)
  /\ (exists url, href a = Some url /\ url <> "")
  /\ (target a = Some "_blank" <-> rel a = Some "noopener noreferrer")
  /\ (target a = Some "_blank"
      <-> exists p, topProduct products = Some p
                    /\ Product.permalink p <> "").
Proof.
  cbv zeta. unfold topProductLink, hasTopProduct.
  destruct (topProduct products) as [p |] eqn:Htop.
  - destruct (Js.truthy (Product.permalink p)) eqn:Hlink; simpl.
    + assert (Hne : Product.permalink p <> "")
        by now apply truthy_iff_not_empty.
      split; [intros q [= <-] _; split;
              [now apply topProduct_In | reflexivity] |].
      split; [intros q [= <-] Hempty; contradiction |].
      split; [discriminate |].
      split; [intros ->; discriminate |].
      split; [now exists (Product.permalink p) |].
      split; [now split |].
      split; [intros _; now exists p | reflexivity].
    + assert (Hempty : Product.permalink p = "").
      { destruct (String.eqb_spec (Product.permalink p) "") as [He | Hne];
          [exact He |].
        apply truthy_iff_not_empty in Hne. congruence. }
      split; [intros q [= <-] Hne; contradiction |].
      split; [reflexivity |].
      split; [discriminate |].
      split; [reflexivity |].
      split; [now exists "#ranking" |].
      split; [split; discriminate |].
      split; [discriminate |].
      intros (q & [= <-] & Hne). contradiction.
  - simpl.
    split; [discriminate |].
    split; [discriminate |].
    split; [reflexivity |].
    split; [reflexivity |].
    split; [now exists "#ranking" |].
    split; [split; discriminate |].
    split; [discriminate |].
    intros (q & Hq & _). discriminate.
Qed.

Lemma topProductLink_is_well_formed_witness :
  topProductLink ranks_3_1_2
  = {| href := Some "https://produto.example/a";
       target := Some "_blank";
       rel := Some "noopener noreferrer" |}
  /\ topProductLink [unpriced_product]
     = {| href := Some "#ranking"; target := None; rel := None |}.
Proof.
  split.
  - exact (proj2 (proj1 (topProductLink_is_well_formed ranks_3_1_2)
                    (sample_product "a" VIOLINO 1 50) eq_refl
                    ltac:(discriminate))).
  - exact (proj1 (proj2 (topProductLink_is_well_formed [unpriced_product]))
             unpriced_product eq_refl eq_refl).
Defined.

(* ================================================================== *)
(** * Labels and badges *)
(* ================================================================== *)

(** X19.  [stringTypeOptions] lists every instrument once, so the label
    lookup always finds an option (the fallback label is never used) and
    two instruments never share a label. *)
Theorem every_filter_has_its_own_label :
  (forall ty : StringType,
      exists option,
        In option stringTypeOptions
        /\ StringTypeOption.value option = ty
        /\ selectedTypeLabel ty = StringTypeOption.label option)
  /\ NoDup (map StringTypeOption.value stringTypeOptions)
  /\ (forall a b : StringType,
         selectedTypeLabel a = selectedTypeLabel b -> a = b).
Proof.
  split; [| split].
  - intros ty.
    exists {| StringTypeOption.value := ty;
              StringTypeOption.label := selectedTypeLabel ty |}.
    destruct ty; (split; [simpl; auto 10 | split; reflexivity]).
  - repeat constructor; simpl; intuition discriminate.
  - intros a b. destruct a, b; simpl; intros H;
      reflexivity || discriminate.
Qed.

(** X20.  The three confidence levels are shown under three different
    labels. *)
Theorem formatAiConfidence_is_injective (a b : Confidence) :
  formatAiConfidence a = formatAiConfidence b -> a = b.
Proof. destruct a, b; simpl; intros H; reflexivity || discriminate. Qed.

Lemma formatAiConfidence_is_injective_witness :
  media = media.
Proof. exact (formatAiConfidence_is_injective media media eq_refl). Defined.

Lemma leb_le (x y : Js.number) : Js.leb x y = true <-> Js.le x y.
Proof.
  destruct x as [a | | |], y as [b | | |]; simpl; try easy.
  unfold Js.leb. simpl. rewrite negb_involutive. apply Qle_bool_iff.
Qed.

(** X21.  A missing rating and a rating that is [NaN] are never excellent; a
    rating is excellent exactly when it is at least the double [4.8], so
    every rating above an excellent one is excellent too. *)
Theorem hasExcellentRating_is_a_threshold :
  hasExcellentRating None = false
  /\ hasExcellentRating (Some Js.NaN) = false
  /\ (forall x, hasExcellentRating (Some x) = true <-> Js.le number_4_8 x)
  /\ (forall x y, hasExcellentRating (Some x) = true -> Js.le x y ->
                  hasExcellentRating (Some y) = true).
Proof.
  assert (Hiff : forall x,
             hasExcellentRating (Some x) = true <-> Js.le number_4_8 x).
  { intros x. unfold hasExcellentRating, Js.geb. apply leb_le. }
  repeat split; try reflexivity; try apply Hiff.
  intros x y Hx Hxy. apply Hiff. apply Hiff in Hx.
  eapply number_le_trans; eassumption.
Qed.

Lemma hasExcellentRating_is_a_threshold_witness :
  hasExcellentRating (Some (Js.of_Z 5)) = true.
Proof.
  refine (proj2 (proj2 (proj2 hasExcellentRating_is_a_threshold))
            number_4_8 (Js.of_Z 5) eq_refl _).
  vm_compute. discriminate.
Defined.

(** X22.  A product of rank 1 always gets the highlighted card, and the
    highlight is closed downwards: a product ranked at or before a
    highlighted one is highlighted. *)
Theorem rank_1_is_highlighted :
  (forall p, rank_is_1 p = true -> rankHighlighted p = true)
  /\ (forall p q,
         rankHighlighted p = true ->
         Js.le (Product.rank q) (Product.rank p) ->
         rankHighlighted q = true).
Proof.
  split.
  - intros p. unfold rank_is_1, rankHighlighted.
    destruct (Product.rank p) as [a | | |]; simpl; try discriminate.
    intros H. apply Qeq_bool_iff in H. apply leb_le. simpl.
    rewrite H. vm_compute. discriminate.
  - intros p q Hp Hqp. unfold rankHighlighted in *.
    apply leb_le. apply leb_le in Hp.
    eapply number_le_trans; eassumption.
Qed.

Lemma rank_1_is_highlighted_witness :
  rankHighlighted (sample_product "a" VIOLINO 1 50) = true.
Proof.
  exact (proj1 rank_1_is_highlighted (sample_product "a" VIOLINO 1 50)
           eq_refl).
Defined.

(* ================================================================== *)
(** * Base URL resolution: further results *)
(* ================================================================== *)

Lemma default_url_has_no_localhost_literal : ~ contains_localhost_literal DEFAULT_API_URL.
Proof. intros H. apply envPointsToLocal_spec in H. discriminate. Qed.

Lemma replace_trailing_slash_empty (s : string) :
  Js.replace_trailing_slash s = "" <-> s = "" \/ s = "/".
Proof.
  split.
  - destruct s as [| c [| d s]]; simpl; [now left | | discriminate].
    destruct (Ascii.eqb_spec c "/"); [subst; now right | discriminate].
  - intros [-> | ->]; reflexivity.
Qed.

(** X23.  On a page whose host name is neither [localhost] nor
    [127.0.0.1] (in any letter case) the resolved base URL never contains
    the text [localhost] or [127.0.0.1], in any letter case, whatever the
    environment variable holds.  Other spellings of a loopback address are
    not covered: the code does not look for them. *)
Theorem resolved_url_has_no_localhost_literal_off_localhost
    (env : Environment) (hostname : string) :
  window_location_hostname env = Some hostname ->
  ~ is_localhost_literal hostname ->
  ~ contains_localhost_literal (resolveApiBaseUrl env).
Proof.
  intros Hhost Hnot.
  assert (Hanch : Js.test_anchored loopback_names hostname = false).
  { destruct (Js.test_anchored loopback_names hostname) eqn:E;
      [| reflexivity].
    apply isLocalHost_spec in E. contradiction. }
  destruct env as [[v |] w]; simpl in Hhost; subst w.
  - destruct (String.eqb_spec (Js.trim v) "") as [Hblank | Hne].
    + unfold resolveApiBaseUrl. simpl.
      destruct (String.eqb v ""); [apply default_url_has_no_localhost_literal |].
      rewrite Hblank. apply default_url_has_no_localhost_literal.
    + change {| VITE_API_URL := Some v;
                window_location_hostname := Some hostname |}
        with (override_env v hostname).
      rewrite (resolveApiBaseUrl_guard v hostname Hne), Hanch. simpl.
      destruct (Js.test_unanchored loopback_names
                  (Js.replace_trailing_slash (Js.trim v))) eqn:E;
        [apply default_url_has_no_localhost_literal |].
      intros Hm. apply envPointsToLocal_spec in Hm. congruence.
  - apply default_url_has_no_localhost_literal.
Qed.

Lemma resolved_url_has_no_localhost_literal_off_localhost_witness :
  resolveApiBaseUrl (override_env "http://127.0.0.1:8080/"
                                  "cordaslivre.vercel.app")
    = DEFAULT_API_URL
  /\ ~ contains_localhost_literal
        (resolveApiBaseUrl (override_env "http://127.0.0.1:8080/"
                                         "cordaslivre.vercel.app")).
Proof.
  split; [reflexivity |].
  apply (resolved_url_has_no_localhost_literal_off_localhost
           (override_env "http://127.0.0.1:8080/" "cordaslivre.vercel.app")
           "cordaslivre.vercel.app" eq_refl).
  intros [H | [H | []]]; discriminate.
Defined.

(** X24.  The resolved base URL is the empty string, which makes every
    request relative to the page, exactly when the override is a single
    slash (possibly surrounded by white space). *)
Theorem resolved_url_is_empty_for_slash_override (env : Environment) :
  resolveApiBaseUrl env = ""
  <-> exists v, VITE_API_URL env = Some v /\ Js.trim v = "/".
Proof.
  destruct env as [[v |] w]; simpl.
  - assert (Hsame : (if String.eqb v "" then "" else v) = v).
    { destruct (String.eqb_spec v ""); congruence. }
    unfold resolveApiBaseUrl. simpl. rewrite Hsame. split.
    + destruct (String.eqb_spec (Js.trim v) "") as [Hblank | Hne];
        [discriminate |].
      intros H. exists v. split; [reflexivity |].
      assert (Hnorm : Js.replace_trailing_slash (Js.trim v) = "").
      { destruct w as [hostname |]; [| exact H].
        destruct (negb _ && _); [discriminate | exact H]. }
      apply replace_trailing_slash_empty in Hnorm as [? | ?];
        [contradiction | assumption].
    + intros (v' & [= <-] & Hslash). rewrite Hslash. simpl.
      destruct w as [hostname |]; [| reflexivity].
      now rewrite andb_false_r.
  - split; [discriminate | intros (v & Hv & _); discriminate].
Qed.

Lemma resolveApiBaseUrl_without_override_witness :
  resolveApiBaseUrl {| VITE_API_URL := Some "   ";
                       window_location_hostname := Some "localhost" |}
  = DEFAULT_API_URL.
Proof.
  exact (resolveApiBaseUrl_without_override
           {| VITE_API_URL := Some "   ";
              window_location_hostname := Some "localhost" |} eq_refl).
Defined.

Lemma resolveApiBaseUrl_without_window_witness :
  resolveApiBaseUrl {| VITE_API_URL := Some "http://localhost:3000/";
                       window_location_hostname := None |}
  = "http://localhost:3000".
Proof.
  exact (resolveApiBaseUrl_without_window "http://localhost:3000/"
           ltac:(discriminate)).
Defined.

(* ================================================================== *)
(** * Two more consequences *)
(* ================================================================== *)

(** X27.  When a fetch fails while no list is stored (as on the first load),
    the page shows the error banner and, under it, the notice that no items
    were found for the selected instrument: a failure is rendered like an
    empty ranking. *)
Theorem failed_fetch_without_list_shows_empty_notice
    (pg : Page) (request : nat) (v : unknown) :
  In request (pendingFetches pg) ->
  products (shown pg) = [] ->
  let s' := shown (step pg (FetchSettled request (Throw v))) in
  hasError s' = true
  /\ rankingSection s'
     = EmptyNotice (selectedTypeLabel (selectedType (shown pg))).
Proof.
  intros Hin Hempty. cbv zeta. unfold shown in *. simpl.
  apply is_pending_In in Hin. rewrite Hin. cbn [runtime].
  rewrite productsSettled_view. unfold rankingSection. simpl.
  rewrite Hempty. split; reflexivity.
Qed.

Lemma failed_fetch_without_list_shows_empty_notice_witness :
  rankingSection
    (shown (step mount (FetchSettled 0 (Throw (axios_error NetworkError)))))
  = EmptyNotice "Violão".
Proof.
  exact (proj2 (failed_fetch_without_list_shows_empty_notice
                  mount 0 (axios_error NetworkError)
                  (or_introl eq_refl) eq_refl)).
Defined.

Lemma next_replies_app (net : Network) (ty : StringType) (k j : nat) :
  forall n0,
    next_replies net ty n0 (k + j)
    = (next_replies net ty n0 k ++ next_replies net ty (n0 + k) j)%list.
Proof.
  induction k as [| k IH]; intros n0; simpl.
  - now rewrite Nat.add_0_r.
  - rewrite IH. do 3 f_equal. lia.
Qed.

Lemma settle_replies_prefix (replies more : list (Reply (list Product.t)))
    (payload : list Product.t) :
  forall lastError,
    settle_replies replies lastError = Normal payload ->
    settle_replies (replies ++ more) lastError = Normal payload
    /\ attempts_made (replies ++ more) = attempts_made replies.
Proof.
  induction replies as [| [response | e] replies IH]; intros lastError H;
    simpl in *; [discriminate | now split |].
  destruct (IH _ H) as [H1 H2]. split; [exact H1 | now rewrite H2].
Qed.

(** X28.  A larger bound never changes a success: when the function returns
    a payload with [retries] attempts allowed, it returns the same payload
    after the same number of requests with any larger bound, and with any
    delay. *)
Theorem fetch_success_is_stable_under_more_retries
    (net : Network) (ty : StringType) (retries more : nat)
    (delayMs delayMs' : Z) (r : Runtime) (payload : list Product.t) :
  fst (fetchProductsWithRetry net ty retries delayMs r) = Normal payload ->
  fst (fetchProductsWithRetry net ty (retries + more) delayMs' r)
  = Normal payload
  /\ requests (snd (fetchProductsWithRetry net ty (retries + more)
                      delayMs' r))
     = requests (snd (fetchProductsWithRetry net ty retries delayMs r)).
Proof.
  intros Hok. rewrite fetchProductsWithRetry_completion in Hok.
  destruct (settle_replies_prefix _
              (next_replies net ty (requests r + retries) more) _ _ Hok)
    as [Hsettle Hmade].
  rewrite <- next_replies_app in Hsettle, Hmade.
  split.
  - now rewrite fetchProductsWithRetry_completion.
  - unfold fetchProductsWithRetry.
    pose proof (retry_loop_settles net ty (retries + more) delayMs'
                  (retries + more) 1 undefined r ltac:(lia)) as H1.
    replace (retries + more + 1 - 1) with (retries + more) in H1 by lia.
    pose proof (retry_loop_settles net ty retries delayMs
                  retries 1 undefined r ltac:(lia)) as H2.
    replace (retries + 1 - 1) with retries in H2 by lia.
    rewrite H1, H2. simpl. now rewrite Hmade.
Qed.

Lemma fetch_success_is_stable_under_more_retries_witness :
  fst (fetchProductsWithRetry (flaky_network 2) VIOLAO (3 + 4) 100
         fresh_runtime)
  = Normal violao_list.
Proof.
  exact (proj1 (fetch_success_is_stable_under_more_retries
                  (flaky_network 2) VIOLAO 3 4 2000 100 fresh_runtime
                  violao_list eq_refl)).
Defined.
